(** * VetusAI browser client: search.js and chat.js

    A shallow embedding of the two scripts of the repository:

    - [search.js] (results and thread views, routing, the two search forms),
    - [static/chat.js] (the chat form with its two-phase request).

    JavaScript values are embedded as the inductive type [JS.val], thrown
    exceptions as the [JS.Throw] case of [JS.result], and an [async] function
    as a resumption ([Async.proc]): the DOM state reached at each [await]
    together with the request being awaited and the continuation that is run
    when the request settles.

    Modelling boundaries, stated once:
    - a string is held as its UTF-8 text and read character by character
      ([JS.code_points]); white space is the whole class that [trim] and
      [\s] match, the Unicode spaces and line terminators included; a string
      with a lone surrogate has no UTF-8 text and is outside the model;
    - a number is held as the decimal that JavaScript prints for it and is
      printed as [Number::toString] does, exponent notation included;
      rounding is exact on that decimal, which is what binary64 arithmetic
      gives for a decimal of at most 15 significant digits ([JS.exact]);
      [NaN] and the infinities are outside the model;
    - an element's [innerHTML] is kept as the parts the template literal is
      assembled from (link target, title, pills, snippet), each part being
      the HTML text the code produces for it. *)

From Stdlib Require Import String Ascii List ZArith Lia Bool DecimalString.
From stdpp Require Import gmap strings.
Import ListNotations.
Local Open Scope string_scope.
Local Open Scope list_scope.
Set Warnings "-register-all".

(** ** JavaScript values and the built-ins the scripts use *)
Module JS.

(** A number, held as the decimal [mant / 10^scale] that JavaScript prints
    for it (the shortest decimal that reads back as the same binary64 value);
    [87.6] is [Num 876 1]. *)
Record number := Num { mant : Z; scale : nat }.

Inductive val :=
| VUndef
| VNull
| VBool (b : bool)
| VNum (n : number)
| VStr (s : string)
| VArr (items : list val)
| VObj (fields : list (string * val)).

(** An [Error] object: its [name] and its [message]. *)
Record error := Err { ename : string; emessage : string }.

Inductive result (A : Type) :=
| Ok (a : A)
| Throw (e : error).
Arguments Ok {A} a.
Arguments Throw {A} e.

(** Sequencing of computations that may throw: [x ← r; k]. *)
#[export] Instance result_ret : MRet result := fun A a => Ok a.
#[export] Instance result_bind : MBind result := fun A B f r =>
  match r with
  | Ok a => f a
  | Throw e => Throw e
  end.

(** [new Error(msg)] and the engine's [TypeError]. *)
Definition Error (msg : string) : error := Err "Error" msg.
Definition TypeError (msg : string) : error := Err "TypeError" msg.

(** [String(err)] for an error object. *)
Definition error_to_string (e : error) : string :=
  if (emessage e =? "")%string then ename e
  else ename e +:+ ": " +:+ emessage e.

(** [err.message || String(err)]. *)
Definition message_or_string (e : error) : string :=
  if (emessage e =? "")%string then error_to_string e else emessage e.

(** *** Numbers *)

Definition Z_to_string (z : Z) : string := NilZero.string_of_int (Z.to_int z).
Definition nat_to_string (n : nat) : string := NilZero.string_of_uint (Nat.to_uint n).

Fixpoint normalize (m : Z) (sc : nat) : Z * nat :=
  match sc with
  | O => (m, O)
  | S sc' => if (m mod 10 =? 0)%Z then normalize (m / 10) sc' else (m, sc)
  end.

Fixpoint zeros (n : nat) : string :=
  match n with
  | O => ""
  | S n' => String "0" (zeros n')
  end.

Definition pad_zeros (width : nat) (s : string) : string :=
  zeros (width - String.length s) +:+ s.

(** The digits of a numeral without its trailing zeros. *)
Fixpoint significant (digits : string) : string :=
  match digits with
  | EmptyString => ""
  | String c s' =>
      match significant s' with
      | EmptyString => if Ascii.eqb c "0" then "" else String c ""
      | t => String c t
      end
  end.

(** The exponent notation of [Number::toString]: the first significant
    digit, the others after a point when there are any, and the exponent [e]
    of the first digit with its sign. *)
Definition exponential (negative : bool) (digits : string) (e : Z) : string :=
  (if negative then "-" else "")
    +:+ match significant digits with
        | EmptyString => "0"
        | String d EmptyString => String d ""
        | String d rest => String d ("." +:+ rest)
        end
    +:+ "e" +:+ (if (e <? 0)%Z then "-" else "+") +:+ Z_to_string (Z.abs e).

(** [String(n)] for a number ([Number::toString]): plain digits for a
    magnitude from [1e-6] up to, not including, [1e21], and exponent notation
    outside that range. *)
Definition number_to_string (n : number) : string :=
  let '(m, sc) := normalize (mant n) (scale n) in
  let a := Z.abs m in
  let digits := Z_to_string a in
  let negative := (m <? 0)%Z in
  match sc with
  | O =>
      if (a <? 10 ^ 21)%Z then Z_to_string m
      else exponential negative digits (Z.of_nat (String.length digits) - 1)
  | S _ =>
      let p := (10 ^ Z.of_nat sc)%Z in
      if ((a <? 10 ^ 21 * p) && (p <=? a * 10 ^ 6))%Z then
        (if negative then "-" else "") +:+ Z_to_string (a / p) +:+ "."
          +:+ pad_zeros sc (Z_to_string (a mod p))
      else
        exponential negative digits
          (Z.of_nat (String.length digits) - Z.of_nat sc - 1)
  end.

(** The decimals on which the embedding and binary64 arithmetic agree in
    what the scripts compute with a number (rounding it, printing it,
    comparing it with 1): those of at most 15 significant digits, which
    [JSON.parse] and [String] take to one another without loss. *)
Definition exact (n : number) : bool := (Z.abs (mant n) <? 10 ^ 15)%Z.

(** [Math.round]: the nearest integer, a tie going up. *)
Definition Math_round (n : number) : Z :=
  let p := (10 ^ Z.of_nat (scale n))%Z in
  ((2 * mant n + p) / (2 * p))%Z.

(** [`${Math.round(n)}`]: the rounded number as a template prints it. *)
Definition rounded (n : number) : string :=
  number_to_string (Num (Math_round n) 0).

(** [n === 1] for a number [n]. *)
Definition number_is_one (n : number) : bool :=
  (mant n =? 10 ^ Z.of_nat (scale n))%Z.

(** *** Conversions and tests *)

(** [String(v)]. *)
Fixpoint to_string (v : val) : string :=
  match v with
  | VUndef => "undefined"
  | VNull => "null"
  | VBool true => "true"
  | VBool false => "false"
  | VNum n => number_to_string n
  | VStr s => s
  | VArr l =>
      String.concat ","
        (map (fun x => match x with
                       | VUndef | VNull => ""
                       | _ => to_string x
                       end) l)
  | VObj _ => "[object Object]"
  end.

(** The conversion [Array.prototype.join] applies to an element. *)
Definition item_to_string (x : val) : string :=
  match x with
  | VUndef | VNull => ""
  | _ => to_string x
  end.

(** [a.join(sep)] for an array of values. *)
Definition array_join (sep : string) (l : list val) : string :=
  String.concat sep (map item_to_string l).

(** Truthiness, as [if (v)], [!v], [v || w] and [v ? a : b] test it. *)
Definition truthy (v : val) : bool :=
  match v with
  | VUndef | VNull => false
  | VBool b => b
  | VNum n => negb (mant n =? 0)%Z
  | VStr s => negb (s =? "")%string
  | VArr _ | VObj _ => true
  end.

(** [a || b]. *)
Definition or_else (a b : val) : val := if truthy a then a else b.

(** [typeof v === "number"]. *)
Definition is_number (v : val) : bool :=
  match v with
  | VNum _ => true
  | _ => false
  end.

(** [v !== undefined && v !== null]. *)
Definition is_present (v : val) : bool :=
  match v with
  | VUndef | VNull => false
  | _ => true
  end.

Fixpoint assoc (k : string) (l : list (string * val)) : val :=
  match l with
  | [] => VUndef
  | (k', v) :: l' => if (k =? k')%string then v else assoc k l'
  end.

(** [v.k] for a data property [k]: reading a property of [null] or
    [undefined] throws, a missing property is [undefined]. *)
Definition get (v : val) (k : string) : result val :=
  match v with
  | VUndef =>
      Throw (TypeError ("Cannot read properties of undefined (reading '" +:+ k +:+ "')"))
  | VNull =>
      Throw (TypeError ("Cannot read properties of null (reading '" +:+ k +:+ "')"))
  | VObj fs => Ok (assoc k fs)
  | _ => Ok VUndef
  end.

(** [v.k] for a value already known not to be [null] or [undefined]. *)
Definition field (v : val) (k : string) : val :=
  match v with
  | VObj fs => assoc k fs
  | _ => VUndef
  end.

(** [Array.isArray(v) ? v : []]. *)
Definition array_or_empty (v : val) : list val :=
  match v with
  | VArr l => l
  | _ => []
  end.

(** *** Strings

    A string is held as its UTF-8 text.  Its characters are told apart by
    their bytes: a character is a byte that is not a continuation byte
    ([10xxxxxx]) together with the continuation bytes that follow it. *)

Definition continuation (c : ascii) : bool :=
  let n := nat_of_ascii c in
  ((128 <=? n) && (n <? 192))%nat.

(** The characters of a text, each as the bytes that encode it. *)
Fixpoint code_points (s : string) : list string :=
  match s with
  | EmptyString => []
  | String c s' =>
      match s' with
      | EmptyString => [String c ""]
      | String d _ =>
          if continuation d then
            match code_points s' with
            | p :: ps => String c p :: ps
            | [] => [String c ""]
            end
          else String c "" :: code_points s'
      end
  end.

(** The text made of the characters [l]. *)
Fixpoint implode (l : list string) : string :=
  match l with
  | [] => ""
  | c :: l' => c +:+ implode l'
  end.

Definition bytes (l : list nat) : string :=
  string_of_list_ascii (map ascii_of_nat l).

(** The characters that [trim] removes and the class [\s] matches, in
    UTF-8: U+0009 to U+000D, U+0020, U+00A0, U+1680, U+2000 to U+200A,
    U+2028, U+2029, U+202F, U+205F, U+3000 and U+FEFF. *)
Definition white_space : list string :=
  [bytes [9]; bytes [10]; bytes [11]; bytes [12]; bytes [13]; bytes [32];
   bytes [194; 160];
   bytes [225; 154; 128];
   bytes [226; 128; 128]; bytes [226; 128; 129]; bytes [226; 128; 130];
   bytes [226; 128; 131]; bytes [226; 128; 132]; bytes [226; 128; 133];
   bytes [226; 128; 134]; bytes [226; 128; 135]; bytes [226; 128; 136];
   bytes [226; 128; 137]; bytes [226; 128; 138];
   bytes [226; 128; 168]; bytes [226; 128; 169];
   bytes [226; 128; 175];
   bytes [226; 129; 159];
   bytes [227; 128; 128];
   bytes [239; 187; 191]].

Definition is_space (c : string) : bool := existsb (String.eqb c) white_space.

(** What [trimStart] and [trimEnd] leave of the characters of a text. *)
Fixpoint trimStart (l : list string) : list string :=
  match l with
  | [] => []
  | c :: l' => if is_space c then trimStart l' else l
  end.

Fixpoint trimEnd (l : list string) : list string :=
  match l with
  | [] => []
  | c :: l' =>
      match trimEnd l' with
      | [] => if is_space c then [] else [c]
      | t => c :: t
      end
  end.

(** [s.trim()]. *)
Definition trim (s : string) : string :=
  implode (trimEnd (trimStart (code_points s))).

(** [s.split(/\s+/)]: the fields between the maximal runs of white space.
    [in_sep] tells that the previous character was white space; the head of
    the result is the field being read. *)
Fixpoint split_ws_from (in_sep : bool) (l : list string) : list string :=
  match l with
  | [] => [""]
  | c :: l' =>
      if is_space c then
        if in_sep then split_ws_from true l'
        else "" :: split_ws_from true l'
      else
        match split_ws_from false l' with
        | w :: ws => (c +:+ w) :: ws
        | [] => [c]
        end
  end.

Definition split_ws (s : string) : list string :=
  split_ws_from false (code_points s).

(** A list of characters as [code_points] yields them: each one a byte
    followed by continuation bytes only, and each one but the first beginning
    with a byte that is not a continuation byte. *)
Fixpoint all_continuation (s : string) : bool :=
  match s with
  | EmptyString => true
  | String c s' => continuation c && all_continuation s'
  end.

Definition character (c : string) : bool :=
  match c with
  | EmptyString => false
  | String _ r => all_continuation r
  end.

Definition boundary (s : string) : bool :=
  match s with
  | EmptyString => false
  | String a _ => negb (continuation a)
  end.

Definition well_formed (l : list string) : Prop :=
  Forall (fun c => character c = true) l
  /\ Forall (fun c => boundary c = true) (tail l).

(** [s.split(/[\\/]/)]: the fields between single separators. *)
Definition is_path_sep (c : ascii) : bool :=
  ((nat_of_ascii c =? 47) || (nat_of_ascii c =? 92))%nat.

Fixpoint split_path (s : string) : list string :=
  match s with
  | EmptyString => [""]
  | String c s' =>
      if is_path_sep c then "" :: split_path s'
      else
        match split_path s' with
        | w :: ws => String c w :: ws
        | [] => [String c ""]
        end
  end.

(** [a.pop()] read as a value: the last element, [undefined] when empty. *)
Definition pop (l : list string) : val :=
  match rev l with
  | [] => VUndef
  | x :: _ => VStr x
  end.

(** [a.slice(0, n)] for a count [n], and [a.join(sep)]. *)
Definition slice0 {A} (n : nat) (l : list A) : list A := firstn n l.
Definition join (sep : string) (l : list string) : string := String.concat sep l.

(** [encodeURIComponent]: every byte outside the unreserved set becomes
    [%XX]. *)
Definition unreserved (c : ascii) : bool :=
  let n := nat_of_ascii c in
  (((65 <=? n) && (n <=? 90)) || ((97 <=? n) && (n <=? 122))
   || ((48 <=? n) && (n <=? 57))
   || existsb (Nat.eqb n) [45; 95; 46; 33; 126; 42; 39; 40; 41])%nat.

Definition hex_digit (n : nat) : ascii :=
  ascii_of_nat (if (n <? 10)%nat then 48 + n else 55 + n).

Definition percent (c : ascii) : string :=
  let n := nat_of_ascii c in
  String "%" (String (hex_digit (n / 16)) (String (hex_digit (n mod 16)) "")).

Fixpoint encodeURIComponent (s : string) : string :=
  match s with
  | EmptyString => ""
  | String c s' =>
      (if unreserved c then String c "" else percent c) +:+ encodeURIComponent s'
  end.

(** [s.replace(/c/g, by)] for a single character [c]. *)
Fixpoint replace_all (c : ascii) (by_ : string) (s : string) : string :=
  match s with
  | EmptyString => ""
  | String d s' =>
      (if Ascii.eqb d c then by_ else String d "") +:+ replace_all c by_ s'
  end.

(** *** [JSON.stringify] and [localStorage] *)

Definition is_undefined (v : val) : bool :=
  match v with
  | VUndef => true
  | _ => false
  end.

(** [JSON.stringify] of an object literal whose property values are JSON
    values or [undefined]: a property holding [undefined] is left out.  The
    text itself is not modelled; the store keeps the value that
    [JSON.parse] reads back from it. *)
Definition stringify (fields : list (string * val)) : val :=
  VObj (List.filter (fun kv => negb (is_undefined (snd kv))) fields).

(** The browser-scoped store: its entries, and the number of entries it
    accepts before [setItem] throws (0 when storage is unavailable). *)
Record storage := Storage { items : gmap string val; quota : nat }.

Definition QuotaExceededError : error :=
  Err "QuotaExceededError" "The quota has been exceeded.".

Definition setItem (k : string) (v : val) (st : storage) : result storage :=
  if bool_decide (is_Some (items st !! k)) || (size (items st) <? quota st)%nat
  then Ok (Storage (<[k:=v]> (items st)) (quota st))
  else Throw QuotaExceededError.

(** [try { localStorage.setItem(k, v); } catch (_) {}]. *)
Definition try_setItem (k : string) (v : val) (st : storage) : storage :=
  match setItem k v st with
  | Ok st' => st'
  | Throw _ => st
  end.

End JS.

(** ** [fetch] and the [fetchJSON] wrapper (the same text in both scripts) *)
Module Http.
Import JS.

Inductive method := GET | POST.

(** A request: [body] is the value given to [JSON.stringify]; the only
    header the scripts send is the JSON content type of a POST. *)
Record request := Request { url : string; meth : method; body : option val }.

(** A response as [fetchJSON] reads it: the status, what [res.text()]
    resolves to ([None] when it rejects) and what [res.json()] settles to. *)
Record response := Response {
  status : nat;
  text_body : option string;
  json_body : result val
}.

(** How [fetch] settles. *)
Inductive outcome :=
| NetworkError (e : error)
| Received (res : response).

(** [res.ok]. *)
Definition ok (res : response) : bool :=
  ((200 <=? status res) && (status res <=? 299))%nat.

(** [await res.text().catch(() => "")]. *)
Definition text_or_empty (res : response) : string :=
  match text_body res with
  | Some t => t
  | None => ""
  end.

(** [fetchJSON], as a function of how [fetch] settles. *)
Definition fetchJSON (o : outcome) : result val :=
  match o with
  | NetworkError e => Throw e
  | Received res =>
      if negb (ok res) then
        let t := text_or_empty res in
        Throw (Error (if negb (t =? "")%string then t
                      else "Request failed: " +:+ nat_to_string (status res)))
      else json_body res
  end.

End Http.

(** ** [async] functions as resumptions *)
Module Async.
Import JS Http.

(** A run of an [async] function over the state [S]: it has returned
    ([Done]), its promise has rejected ([Rejected]), or it is suspended at an
    [await fetchJSON(...)] in state [s] until the request settles.  The
    awaits inside [fetchJSON] (the response, then its text) are one
    suspension: the page is not written to between them.  A run is that of
    one call, no other listener running in between. *)
Inductive proc (S : Type) :=
| Done (s : S)
| Rejected (s : S) (e : error)
| Await (s : S) (req : request) (k : outcome -> proc S).
Arguments Done {S} s.
Arguments Rejected {S} s e.
Arguments Await {S} s req k.

(** The state the page is in while the run is where it is. *)
Definition state_of {S} (p : proc S) : S :=
  match p with
  | Done s | Rejected s _ | Await s _ _ => s
  end.

(** The request the run is waiting for. *)
Definition pending {S} (p : proc S) : option request :=
  match p with
  | Await _ req _ => Some req
  | _ => None
  end.

(** Deliver the outcomes of the awaited requests, in order. *)
Fixpoint resume {S} (p : proc S) (os : list outcome) : proc S :=
  match os with
  | [] => p
  | o :: os' =>
      match p with
      | Await _ _ k => resume (k o) os'
      | _ => p
      end
  end.

(** The requests issued while the outcomes [os] are delivered, the one the
    run is left waiting for included. *)
Fixpoint requests {S} (p : proc S) (os : list outcome) : list request :=
  match p with
  | Await _ req k =>
      req :: match os with
             | [] => []
             | o :: os' => requests (k o) os'
             end
  | _ => []
  end.

End Async.

(** ** search.js: results view, thread view, routing, search forms *)
Module Search.
Import JS Http Async.

(** *** Tiny helpers *)

(** The three replacements of [safe], in the order the code chains them. *)
Definition escape (s : string) : string :=
  replace_all ">" "&gt;" (replace_all "<" "&lt;" (replace_all "&" "&amp;" s)).

(** [safe(s = "")]: the default applies to [undefined] only. *)
Definition safe (v : val) : string :=
  escape (match v with
          | VUndef => ""
          | _ => to_string v
          end).

(** [cutToWords(text = "", maxWords)] for a word count [maxWords]. *)
Definition cutToWords (text : val) (maxWords : nat) : string :=
  let text := match text with
              | VUndef => ""
              | _ => to_string text
              end in
  let words := split_ws (trim text) in
  join " " (slice0 maxWords words)
    +:+ (if (maxWords <? length words)%nat then "…" else "").

(** *** The page *)

Inductive view := HOME | RESULTS | THREAD.

Definition view_name (v : view) : string :=
  match v with
  | HOME => "home"
  | RESULTS => "results"
  | THREAD => "thread"
  end.

#[export] Instance view_eq_dec : EqDecision view.
Proof. solve_decision. Defined.

(** [location] and [URLSearchParams]: the query string as name/value pairs. *)
Record url := Url {
  origin : string;
  pathname : string;
  search : list (string * string)
}.

(** A result card [<li class="result">]: the parts of its [innerHTML]. *)
Record card := Card {
  href : string;
  title : string;
  pills : list string;
  snippet : string;
  source_line : option string
}.

(** The [.email-content] area of an email item. *)
Inductive email_content :=
| LoadingContent
| EmailContent (headers : list (string * string)) (body : string)
    (attachments : list string)
| FailedContent.

(** An email item of the thread view: the header line and the id pill of
    its [<summary>], and its content area. *)
Record email_item := EmailItem {
  header_line : string;
  id_pill : string;
  content : email_content
}.

(** The elements [showThread] writes to; the thread view's markup is taken
    to contain them whenever it contains [#view-thread]. *)
Record thread_dom := ThreadDom {
  thread_title : string;
  thread_topic : string;
  thread_detail1 : string;
  thread_detail2 : string;
  emails_list : list email_item
}.

(** The document, the address bar and the browser services the script uses.
    An element the code looks up under a guard is an [option]: [None] when
    the document has no such element.  [randomUUID] is the sequence of
    identifiers the random source yields, [minted] how many were taken;
    [date_to_locale] is [new Date(s).toLocaleString(...)], [None] when the
    date is invalid. *)
Record page := Page {
  location : url;
  entries : list url;
  views : list view;
  active : option view;
  home_query : option string;
  home_focused : bool;
  results_query : option string;
  results_summary : option string;
  results_list : option (list card);
  thread : thread_dom;
  localStorage : storage;
  randomUUID : nat -> string;
  minted : nat;
  date_to_locale : val -> option string
}.

Definition with_location (u : url) (pg : page) : page :=
  Page u (u :: entries pg) (views pg) (active pg) (home_query pg)
    (home_focused pg) (results_query pg) (results_summary pg)
    (results_list pg) (thread pg) (localStorage pg) (randomUUID pg)
    (minted pg) (date_to_locale pg).

Definition with_active (a : option view) (focus : bool) (pg : page) : page :=
  Page (location pg) (entries pg) (views pg) a (home_query pg)
    focus (results_query pg) (results_summary pg)
    (results_list pg) (thread pg) (localStorage pg) (randomUUID pg)
    (minted pg) (date_to_locale pg).

Definition with_results (q s : option string) (l : option (list card))
    (pg : page) : page :=
  Page (location pg) (entries pg) (views pg) (active pg) (home_query pg)
    (home_focused pg) q s l (thread pg) (localStorage pg) (randomUUID pg)
    (minted pg) (date_to_locale pg).

Definition with_thread (t : thread_dom) (pg : page) : page :=
  Page (location pg) (entries pg) (views pg) (active pg) (home_query pg)
    (home_focused pg) (results_query pg) (results_summary pg)
    (results_list pg) t (localStorage pg) (randomUUID pg)
    (minted pg) (date_to_locale pg).

Definition with_storage (st : storage) (n : nat) (pg : page) : page :=
  Page (location pg) (entries pg) (views pg) (active pg) (home_query pg)
    (home_focused pg) (results_query pg) (results_summary pg)
    (results_list pg) (thread pg) st (randomUUID pg) n (date_to_locale pg).

(** [if (el) el.prop = v]. *)
Definition assign {A} (v : A) (el : option A) : option A :=
  match el with
  | Some _ => Some v
  | None => None
  end.

Definition set_summary (text : string) (pg : page) : page :=
  with_results (results_query pg) (assign text (results_summary pg))
    (results_list pg) pg.

Definition set_list (l : list card) (pg : page) : page :=
  with_results (results_query pg) (results_summary pg) (Some l) pg.

Definition has_view (v : view) (pg : page) : bool :=
  bool_decide (v ∈ views pg).

(** [show(view)]: no view stays active but the one asked for, when the
    document has it. *)
Definition show (v : view) (pg : page) : page :=
  with_active (if has_view v pg then Some v else None) (home_focused pg) pg.

(** [searchParams.set(k, v)] and [searchParams.get(k)]. *)
Fixpoint params_set (k v : string) (l : list (string * string))
  : list (string * string) :=
  match l with
  | [] => [(k, v)]
  | (k', v') :: l' =>
      if (k' =? k)%string
      then (k, v) :: List.filter (fun p => negb (fst p =? k)%string) l'
      else (k', v') :: params_set k v l'
  end.

Fixpoint params_get (k : string) (l : list (string * string)) : val :=
  match l with
  | [] => VNull
  | (k', v) :: l' => if (k' =? k)%string then VStr v else params_get k l'
  end.

(** [history.pushState({}, "", url)] after the two [searchParams.set]. *)
Definition pushState (mode : view) (k v : string) (pg : page) : page :=
  let u := location pg in
  with_location
    (Url (origin u) (pathname u)
         (params_set k v (params_set "mode" (view_name mode) (search u)))) pg.

(** *** Results view *)

(** The summary line for the hits of a response. *)
Definition summary_line (hits : list val) : string :=
  let n := length hits in
  if (n =? 0)%nat then "No matching results found."
  else nat_to_string n +:+ " matching result"
         +:+ (if (1 <? n)%nat then "s" else "").

(** [scorePill]: the text of the pill, no pill unless the score is a number. *)
Definition scorePill (r : val) : list string :=
  match field r "score" with
  | VNum n => ["score: " +:+ rounded n +:+ "%"]
  | _ => []
  end.

(** [emailsCount] and [emailsPill]. *)
Definition emailsCount (r : val) : val :=
  if is_number (field r "emails_count") then field r "emails_count"
  else match field r "emails" with
       | VArr l => VNum (Num (Z.of_nat (length l)) 0)
       | _ => VUndef
       end.

Definition emailsPill (r : val) : list string :=
  match emailsCount r with
  | VNum n =>
      [number_to_string n +:+ " email"
         +:+ (if number_is_one n then "" else "s")]
  | _ => []
  end.

Definition pagePill (r : val) : list string :=
  if is_present (field r "page")
  then ["page: " +:+ to_string (field r "page")]
  else [].

(** The link of a thread card. *)
Definition thread_href (u : url) (tid : val) : string :=
  origin u +:+ pathname u +:+ "?mode=thread&id="
    +:+ encodeURIComponent (to_string tid).

Definition topicLine (r : val) : string :=
  if truthy (field r "topic") then to_string (field r "topic")
  else "(No Topic)".

(** The card filled in for a thread hit [r] whose [thread_id] is [tid]. *)
Definition thread_card (u : url) (r tid : val) : card :=
  let subject := or_else (field r "subject") (VStr ("Thread " +:+ to_string tid)) in
  Card (thread_href u tid)
       (safe subject)
       (safe tid :: scorePill r ++ emailsPill r)
       (safe (VStr (cutToWords (VStr (topicLine r)) 60)))
       None.

(** [r.doc_name || r.doc_path.split(/[\\/]/).pop()]. *)
Definition doc_title (r : val) : result val :=
  if truthy (field r "doc_name") then Ok (field r "doc_name")
  else match field r "doc_path" with
       | VStr p => Ok (pop (split_path p))
       | _ => Throw (TypeError "r.doc_path.split is not a function")
       end.

(** The staging record of a document hit. *)
Definition doc_payload (r title : val) : val :=
  stringify [("doc_name", title);
             ("source", field r "doc_path");
             ("page", field r "page");
             ("paragraph_index", field r "paragraph_index");
             ("paragraph", or_else (field r "paragraph") (VStr ""))].

(** The card of a document hit [r] with title [title] and minted id
    [docId]. *)
Definition doc_card (r title : val) (docId : string) : card :=
  Card ("/doc?id=" +:+ encodeURIComponent docId)
       (safe title)
       (scorePill r ++ pagePill r)
       (safe (VStr (cutToWords (or_else (field r "paragraph") (VStr "")) 80)))
       (Some (safe (field r "doc_path"))).

(** One turn of [for (const r of hits)], the list element [listEl] being
    present with the cards [cards].  A thread hit has its card filled in and
    the card is left unattached: [listEl.appendChild(li)] is reached in the
    document branch only. *)
Definition render_hit (r : val) (pg : page) (cards : list card) : result page :=
  tid ← get r "thread_id";
  if truthy tid then
    let li := thread_card (location pg) r tid in
    Ok pg
  else if truthy (field r "doc_path") then
    title ← doc_title r;
    let docId := randomUUID pg (minted pg) in
    let st := try_setItem ("docview:" +:+ docId) (doc_payload r title)
                (localStorage pg) in
    let li := doc_card r title docId in
    Ok (set_list (cards ++ [li]) (with_storage st (S (minted pg)) pg))
  else Ok pg.

(** [for (const r of hits)] under [if (listEl)]: the page the loop reaches,
    and the exception that ended it early, if any. *)
Fixpoint render_hits (hits : list val) (pg : page) : page * option error :=
  match hits with
  | [] => (pg, None)
  | r :: rest =>
      match results_list pg with
      | None => (pg, None)
      | Some cards =>
          match render_hit r pg cards with
          | Ok pg' => render_hits rest pg'
          | Throw e => (pg, Some e)
          end
      end
  end.

(** The [try] block of [showResults] after the [await]: the summary line
    is written, then the hits are rendered. *)
Definition render_results (data : val) (pg : page) : page * option error :=
  match get data "results" with
  | Throw e => (pg, Some e)
  | Ok results =>
      let hits := array_or_empty results in
      render_hits hits (set_summary (summary_line hits) pg)
  end.

(** The [catch] of [showResults]. *)
Definition results_error (e : error) (pg : page) : page :=
  set_summary ("Error: " +:+ message_or_string e) pg.

(** The body of [showResults] from the point where [fetchJSON] settles. *)
Definition lookup_settled (r : result val) (pg : page) : page :=
  match r with
  | Throw e => results_error e pg
  | Ok data =>
      match render_results data pg with
      | (pg', None) => pg'
      | (pg', Some e) => results_error e pg'
      end
  end.

Definition lookup_request (query : string) : request :=
  Request "/lookup" POST (Some (VObj [("query", VStr query)])).

(** The page while the lookup is in flight. *)
Definition searching (query : string) (pg : page) : page :=
  let pg := show RESULTS pg in
  with_results (assign query (results_query pg))
    (assign "Searching…" (results_summary pg))
    (assign [] (results_list pg)) pg.

Definition showResults (query : string) (pg : page) : proc page :=
  if negb (has_view RESULTS pg) then Done pg
  else
    let pg := searching query pg in
    Await pg (lookup_request query)
      (fun o => Done (lookup_settled (fetchJSON o) pg)).

(** *** Thread view *)

(** [pick(...vals)]: the first value that is not [undefined], [null] or
    the empty string. *)
Fixpoint pick (vals : list val) : val :=
  match vals with
  | [] => VUndef
  | v :: rest =>
      match v with
      | VUndef | VNull => pick rest
      | VStr s => if (s =? "")%string then pick rest else v
      | _ => v
      end
  end.

Definition formatRecipients (v : val) : string :=
  if negb (truthy v) then ""
  else match v with
       | VArr l => array_join ", " l
       | _ => to_string v
       end.

Definition formatDateDisplay (toLocale : val -> option string) (s : val) : val :=
  if negb (truthy s) then VStr "No date"
  else match toLocale s with
       | None => s
       | Some t => VStr t
       end.

(** [setBlock]: the text of the block. *)
Definition block_text (label : string) (text : val) : string :=
  if truthy text then label +:+ ":
" +:+ to_string text
  else "".

(** [safe(a.filename || a.name || "file")] for each attachment. *)
Fixpoint attachment_names (l : list val) : result (list string) :=
  match l with
  | [] => Ok []
  | a :: rest =>
      filename ← get a "filename";
      names ← attachment_names rest;
      Ok (safe (or_else filename (or_else (field a "name") (VStr "file")))
            :: names)
  end.

(** The [try] block of one email once its response [resp] is there: the
    header line and the content area. Every exception is raised before
    the first assignment to the item. *)
Definition email_rendered (toLocale : val -> option string) (resp : val)
  : result (string * email_content) :=
  data ← get resp "data";
  from ← get data "from";
  let fromVal := pick [from; field data "sender"] in
  let toVal := pick [field data "to"; field data "receiver"] in
  let ccVal := pick [field data "cc"; field data "ccs"] in
  let hdrs :=
    List.filter (fun kv => truthy (snd kv))
      [("Subject", field data "subject");
       ("From", fromVal);
       ("To", VStr (formatRecipients toVal));
       ("Cc", VStr (formatRecipients ccVal))] in
  let headers := map (fun kv => (fst kv, escape (to_string (snd kv)))) hdrs in
  let body :=
    or_else (field data "text_body")
      (or_else (field data "body") (or_else (field data "snippet") (VStr ""))) in
  names ← attachment_names (array_or_empty (field data "attachments"));
  let dateRaw := or_else (field data "date") (field data "sent_at") in
  let dateLabel := formatDateDisplay toLocale dateRaw in
  Ok (safe dateLabel, EmailContent headers (escape (to_string body)) names).

(** The collapsed item appended for an email id before its fetch. *)
Definition placeholder (eid : val) : email_item :=
  EmailItem "Loading date…" (safe eid) LoadingContent.

(** The item once its fetch has settled. *)
Definition settled_item (toLocale : val -> option string) (eid : val)
    (o : outcome) : email_item :=
  match fetchJSON o ≫= email_rendered toLocale with
  | Ok (date, c) => EmailItem date (safe eid) c
  | Throw _ => EmailItem "Loading date…" (safe eid) FailedContent
  end.

Definition email_request (eid : val) : request :=
  Request ("/emails/" +:+ encodeURIComponent (to_string eid)) GET None.

Definition append_item (it : email_item) (pg : page) : page :=
  let t := thread pg in
  with_thread (ThreadDom (thread_title t) (thread_topic t) (thread_detail1 t)
                 (thread_detail2 t) (emails_list t ++ [it])) pg.

(** The item [li] of the current turn is the last one of the list. *)
Definition replace_last_item (it : email_item) (pg : page) : page :=
  let t := thread pg in
  with_thread (ThreadDom (thread_title t) (thread_topic t) (thread_detail1 t)
                 (thread_detail2 t)
                 (<[pred (length (emails_list t)) := it]> (emails_list t))) pg.

(** [for (const eid of email_ids) { ...; await fetchJSON(...); ... }]:
    a turn appends the placeholder of its email, awaits that email, fills
    the item in, and only then gives way to the next turn. *)
Fixpoint emails_loop (ids : list val) (pg : page) : proc page :=
  match ids with
  | [] => Done pg
  | eid :: rest =>
      let pg := append_item (placeholder eid) pg in
      Await pg (email_request eid)
        (fun o =>
           emails_loop rest
             (replace_last_item (settled_item (date_to_locale pg) eid o) pg))
  end.
(* The two statements after the loop bind the expand-all and collapse-all
   buttons; the open state of the items is not part of [email_item]. *)

(** What [for ... of] iterates over: an array's elements, a string's
    characters; [email_ids = []] stands in for [undefined]; anything else
    is not iterable. *)
Definition characters (s : string) : list val := map VStr (code_points s).

Definition iterate (v : val) : result (list val) :=
  match v with
  | VUndef => Ok []
  | VArr l => Ok l
  | VStr s => Ok (characters s)
  | _ => Throw (TypeError "email_ids is not iterable")
  end.

Definition thread_request (threadId : val) : request :=
  Request ("/threads/" +:+ encodeURIComponent (to_string threadId)) GET None.

(** The thread view while the thread's metadata is in flight. *)
Definition loading_thread (pg : page) : page :=
  with_thread (ThreadDom "Loading…" "" "" "" []) (show THREAD pg).

(** [showThread] from the point where the metadata request settles. *)
Definition thread_settled (threadId : val) (r : result val) (pg : page) : proc page :=
  let t := thread pg in
  match r with
  | Throw _ =>
      Done (with_thread (ThreadDom "Thread not found" (thread_topic t)
                           (thread_detail1 t) (thread_detail2 t) (emails_list t)) pg)
  | Ok threadResp =>
      match get threadResp "topic" with
      | Throw e => Rejected pg e
      | Ok topic =>
          let subject :=
            or_else (field threadResp "subject")
              (or_else topic (VStr ("Thread " +:+ to_string threadId))) in
          let pg := with_thread
                      (ThreadDom (to_string subject) (block_text "Topic" topic)
                         (block_text "Summary" (field threadResp "detail1"))
                         (thread_detail2 t) (emails_list t)) pg in
          match iterate (field threadResp "email_ids") with
          | Throw e => Rejected pg e
          | Ok ids => emails_loop ids pg
          end
      end
  end.

Definition showThread (threadId : val) (pg : page) : proc page :=
  if negb (has_view THREAD pg) then Done pg
  else if negb (truthy threadId) then Done (show HOME pg)
  else
    let pg := loading_thread pg in
    Await pg (thread_request threadId)
      (fun o => thread_settled threadId (fetchJSON o) pg).

(** *** Routing and forms *)

Definition gotoResults (q : string) (pg : page) : proc page :=
  showResults q (pushState RESULTS "q" q pg).

Definition gotoThread (id : string) (pg : page) : proc page :=
  showThread (VStr id) (pushState THREAD "id" id pg).

Definition routeFromURL (pg : page) : proc page :=
  let qs := search (location pg) in
  match params_get "mode" qs with
  | VStr "results" => showResults (to_string (or_else (params_get "q" qs) (VStr ""))) pg
  | VStr "thread" => showThread (params_get "id" qs) pg
  | _ =>
      if has_view HOME pg then
        let pg := show HOME pg in
        Done (with_active (active pg) (bool_decide (is_Some (home_query pg))) pg)
      else Done pg
  end.

(** The [submit] listener of a search form whose query input holds
    [input] ([None]: the document has no such input). *)
Definition search_submit (input : option string) (pg : page) : proc page :=
  match input with
  | None => Rejected pg (TypeError "Cannot read properties of null (reading 'value')")
  | Some v =>
      let q := trim v in
      if (q =? "")%string then Done pg else gotoResults q pg
  end.

Definition home_submit (pg : page) : proc page :=
  search_submit (home_query pg) pg.

Definition results_submit (pg : page) : proc page :=
  search_submit (results_query pg) pg.

End Search.

(** ** chat.js: the chat form *)
Module Chat.
Import JS Http Async.

Definition CONTEXT_MODE : string := "summary".

Definition escape (s : string) : string :=
  replace_all ">" "&gt;" (replace_all "<" "&lt;" (replace_all "&" "&amp;" s)).

Definition safe (v : val) : string :=
  escape (match v with
          | VUndef => ""
          | _ => to_string v
          end).

Definition threadUrl (origin : string) (threadId : val) : string :=
  origin +:+ "/search?mode=thread&id=" +:+ encodeURIComponent (to_string threadId).

Definition buildRewritePrompt (query : string) : string :=
  join "
" ["USER QUESTION:";
    query;
    "";
    "INSTRUCTIONS:";
    "- Rewrite the USER QUESTION above into a single, concise embedding search query.";
    "- Drop filler and verbose statements. Output only the query, no quotes."].

(** The character class of the pattern (single quote, double quote,
    backtick), and the characters its dot does not match: the line
    terminators U+000A, U+000D, U+2028 and U+2029. *)
Definition is_quote (c : ascii) : bool :=
  existsb (Nat.eqb (nat_of_ascii c)) [39; 34; 96].

Definition is_line_break (c : string) : bool :=
  existsb (String.eqb c)
    [bytes [10]; bytes [13]; bytes [226; 128; 168]; bytes [226; 128; 169]].

Definition has_line_break (s : string) : bool :=
  existsb is_line_break (code_points s).

(** A non-empty string as all but its last character, and the last one. *)
Fixpoint split_last (c : ascii) (s : string) : string * ascii :=
  match s with
  | EmptyString => ("", c)
  | String d s' => let (init, z) := split_last d s' in (String c init, z)
  end.

(** [s.match(...)] for the pattern of [stripWrapperQuotes]: the text
    between an opening and a closing quote character, when the whole of [s]
    has that shape and the text between them stays on one line. *)
Definition match_wrapped (s : string) : option string :=
  match s with
  | String c (String d rest) =>
      let (middle, z) := split_last d rest in
      if is_quote c && is_quote z && negb (has_line_break middle)
      then Some middle else None
  | _ => None
  end.

Definition stripWrapperQuotes (s : string) : string :=
  match match_wrapped s with
  | Some m => m
  | None => s
  end.

(** *** The chat page *)

(** A source pill [<a class="pill">]: its link and the pieces of its text. *)
Record pill := Pill {
  pill_href : string;
  pill_label : string;
  pill_score : string;
  pill_extra : string
}.

(** The [.content] of an assistant message: the typing indicator, or HTML
    followed by the pills of the sources block (no block when there is no
    pill). *)
Inductive content :=
| Typing
| Html (html : string) (sources : list pill).

Inductive message :=
| UserMsg (bubble : string)
| AssistantMsg (meta_line : string) (c : content).

Record page := Page {
  origin : string;
  input : string;
  messages : list message;
  localStorage : storage;
  randomUUID : nat -> string;
  minted : nat
}.

Definition with_input (v : string) (pg : page) : page :=
  Page (origin pg) v (messages pg) (localStorage pg) (randomUUID pg) (minted pg).

Definition with_messages (ms : list message) (pg : page) : page :=
  Page (origin pg) (input pg) ms (localStorage pg) (randomUUID pg) (minted pg).

Definition with_storage (st : storage) (n : nat) (pg : page) : page :=
  Page (origin pg) (input pg) (messages pg) st (randomUUID pg) n.

Definition addUserMessage (text : string) (pg : page) : page :=
  with_messages (messages pg ++ [UserMsg (safe (VStr text))]) pg.

(** [addAssistantMessage(html, thinking)]: the page, and the position of the
    new message, by which the handler keeps hold of it. *)
Definition addAssistantMessage (html : string) (thinking : bool) (pg : page)
  : page * nat :=
  (with_messages
     (messages pg ++ [AssistantMsg "Vetus Assistant"
                        (if thinking then Typing else Html html [])]) pg,
   length (messages pg)).

Definition set_content (c : content) (m : message) : message :=
  match m with
  | AssistantMsg meta _ => AssistantMsg meta c
  | UserMsg b => UserMsg b
  end.

Definition set_meta (meta : string) (m : message) : message :=
  match m with
  | AssistantMsg _ c => AssistantMsg meta c
  | UserMsg b => UserMsg b
  end.

Definition update_message (f : message -> message) (el : nat) (pg : page) : page :=
  with_messages (alter f el (messages pg)) pg.

(** [updateAssistantMessage(container, {html})]. *)
Definition updateAssistantMessage (el : nat) (html : string) (pg : page) : page :=
  update_message (set_content (Html html [])) el pg.

(** *** Sources *)

(** The two shapes of a source, as the callback of [sources.map] tells
    them apart: a document when it has no [thread_id] and has a [doc_path]
    or a [paragraph]; a thread in every other case. *)
Inductive shape := DOC | THREAD.

Definition classify (s : val) : shape :=
  if negb (truthy (field s "thread_id"))
     && (truthy (field s "doc_path") || truthy (field s "paragraph"))
  then DOC else THREAD.

(** [s.doc_name || (s.doc_path ? s.doc_path.split(/[\\/]/).pop() : "Document")]. *)
Definition doc_name (s : val) : result val :=
  if truthy (field s "doc_name") then Ok (field s "doc_name")
  else if truthy (field s "doc_path") then
    match field s "doc_path" with
    | VStr p => Ok (pop (split_path p))
    | _ => Throw (TypeError "s.doc_path.split is not a function")
    end
  else Ok (VStr "Document").

Definition doc_payload (s name : val) : val :=
  stringify [("doc_name", name);
             ("source", field s "doc_path");
             ("page", field s "page");
             ("paragraph_index", field s "paragraph_index");
             ("paragraph", or_else (field s "paragraph") (VStr ""))].

Definition score_text (s : val) : string :=
  match field s "score" with
  | VNum n => " (" +:+ rounded n +:+ "%)"
  | _ => ""
  end.

Definition doc_pill (s name : val) (id : string) : pill :=
  Pill ("/doc?id=" +:+ id)
       (safe name)
       (score_text s)
       (if is_present (field s "page")
        then " • page " +:+ to_string (field s "page") else "").

Definition thread_pill (origin : string) (s : val) : pill :=
  Pill (threadUrl origin (field s "thread_id"))
       (safe (or_else (field s "subject")
                (or_else (field s "topic") (field s "thread_id"))))
       (score_text s)
       (match field s "emails_count" with
        | VNum n => " • " +:+ number_to_string n +:+ " email"
                      +:+ (if number_is_one n then "" else "s")
        | _ => ""
        end).

(** The callback of [sources.map] at one source: the page it leaves (an
    identifier is taken before the name is computed, the staging record is
    written under a [try]) and the pill it returns, or what it throws. *)
Definition source_pill (s : val) (pg : page) : page * result pill :=
  match get s "thread_id" with
  | Throw e => (pg, Throw e)
  | Ok _ =>
      match classify s with
      | DOC =>
          let id := randomUUID pg (minted pg) in
          let pg := with_storage (localStorage pg) (S (minted pg)) pg in
          match doc_name s with
          | Throw e => (pg, Throw e)
          | Ok name =>
              let st := try_setItem ("docview:" +:+ id) (doc_payload s name)
                          (localStorage pg) in
              (with_storage st (minted pg) pg, Ok (doc_pill s name id))
          end
      | THREAD => (pg, Ok (thread_pill (origin pg) s))
      end
  end.

(** [sources.map(...)]. *)
Fixpoint source_pills (sources : list val) (pg : page) : page * result (list pill) :=
  match sources with
  | [] => (pg, Ok [])
  | s :: rest =>
      match source_pill s pg with
      | (pg, Throw e) => (pg, Throw e)
      | (pg, Ok p) =>
          match source_pills rest pg with
          | (pg, Throw e) => (pg, Throw e)
          | (pg, Ok ps) => (pg, Ok (p :: ps))
          end
      end
  end.

(** *** The answer *)

(** [s.replace(/\n{2,}/g, "</p><p>")]: [pending] counts the line feeds of
    the run being read, up to two. *)
Fixpoint break_paragraphs (pending : nat) (s : string) : string :=
  match s with
  | EmptyString =>
      match pending with
      | 1 => String "010" ""
      | _ => ""
      end
  | String c s' =>
      if Ascii.eqb c "010" then
        match pending with
        | 0 => break_paragraphs 1 s'
        | 1 => "</p><p>" +:+ break_paragraphs 2 s'
        | _ => break_paragraphs 2 s'
        end
      else
        (match pending with
         | 1 => String "010" ""
         | _ => ""
         end) +:+ String c (break_paragraphs 0 s')
  end.

Definition answer_html (answer : string) : string :=
  "<p>" +:+ replace_all "010" "<br/>" (break_paragraphs 0 (escape answer)) +:+ "</p>".

Definition apology (e : error) : string :=
  "<p>Sorry, I hit an error: " +:+ safe (VStr (message_or_string e)) +:+ "</p>".

(** *** The submit listener *)

Definition rewrite_request (val : string) : request :=
  Request "/ask" POST
    (Some (VObj [("user_input", VStr (buildRewritePrompt val));
                 ("model_name", VStr "deepseek-r1-12k:8b");
                 ("use_chat", VBool false)])).

Definition rag_request (val used : string) : request :=
  Request "/ask-with-rag" POST
    (Some (VObj [("user_input", VStr val);
                 ("query", VStr used);
                 ("context_mode", VStr CONTEXT_MODE)])).

(** [stripWrapperQuotes(String(rewriteResp.answer || "").trim()) || val]. *)
Definition resolved_query (answer : val) (val : string) : string :=
  let used := stripWrapperQuotes (trim (to_string (or_else answer (VStr "")))) in
  if (used =? "")%string then val else used.

(** What the rewrite phase leaves in [rewriteResp]. *)
Definition rewrite_response (val : string) (r : result JS.val) : JS.val :=
  match r with
  | Ok resp => resp
  | Throw _ => VObj [("answer", VStr val)]
  end.

Definition query_meta (used : string) : string :=
  "Vetus Assistant • Query:<code>
" +:+ safe (VStr used) +:+ "</code>".

(** The outer [try] from the point where the answer request settles. *)
Definition answer_settled (el : nat) (r : result val) (pg : page) : page :=
  match r with
  | Throw e => updateAssistantMessage el (apology e) pg
  | Ok resp =>
      match get resp "used_query" with
      | Throw e => updateAssistantMessage el (apology e) pg
      | Ok _ =>
          let sources := array_or_empty (field resp "sources") in
          let answer := trim (to_string (or_else (field resp "answer") (VStr ""))) in
          match source_pills sources pg with
          | (pg, Throw e) => updateAssistantMessage el (apology e) pg
          | (pg, Ok pills) =>
              update_message (set_content (Html (answer_html answer) pills)) el pg
          end
      end
  end.

(** The outer [try] from the point where the rewrite request settles. *)
Definition rewrite_settled (el : nat) (val : string) (r : result JS.val)
    (pg : page) : proc page :=
  match get (rewrite_response val r) "answer" with
  | Throw e => Done (updateAssistantMessage el (apology e) pg)
  | Ok answer =>
      let used := resolved_query answer val in
      let pg := update_message (set_meta (query_meta used)) el pg in
      Await pg (rag_request val used)
        (fun o => Done (answer_settled el (fetchJSON o) pg))
  end.

Definition submit (pg : page) : proc page :=
  let val := trim (input pg) in
  if (val =? "")%string then Done pg
  else
    let pg := with_input "" pg in
    let pg := addUserMessage val pg in
    let (pg, thinkingEl) := addAssistantMessage "" true pg in
    let pg := update_message (set_content Typing) thinkingEl pg in
    Await pg (rewrite_request val)
      (fun o => rewrite_settled thinkingEl val (fetchJSON o) pg).

(** [getSelectedContextMode]: [sel] is the value of [#context-mode] and
    [cb] the checked state of [#use-full-emails], [None] when the document
    has no such element.  The listener does not call it (the call is commented
    out); it uses [CONTEXT_MODE]. *)
Definition getSelectedContextMode (sel : option string) (cb : option bool)
  : string :=
  match sel with
  | Some v => if negb (v =? "")%string then v
              else match cb with
                   | Some checked => if checked then "full" else "summary"
                   | None => "summary"
                   end
  | None => match cb with
            | Some checked => if checked then "full" else "summary"
            | None => "summary"
            end
  end.

End Chat.

(** ** Definitions that follow the specification's words

    They are compared with the code's definitions in the theorems below. *)
Module SpecSide.
Import JS.

(** The words of a text: its maximal runs of characters that are not white
    space, in order. *)
Fixpoint words (l : list string) : list string :=
  match l with
  | [] => []
  | c :: l' =>
      if is_space c then words l'
      else
        match l' with
        | [] => [c]
        | d :: _ =>
            if is_space d then c :: words l'
            else
              match words l' with
              | w :: ws => (c +:+ w) :: ws
              | [] => [c]
              end
        end
  end.

Definition spec_words (s : string) : list string := words (code_points s).

(** Truncation to a word count as the specification words it: the first
    [maxWords] words joined by single spaces, and the ellipsis marker exactly
    when the text has more than [maxWords] words. *)
Definition spec_truncate (text : string) (maxWords : nat) : string :=
  join " " (firstn maxWords (spec_words text))
    +:+ (if (maxWords <? length (spec_words text))%nat then "…" else "").

(** An input that is empty or holds white space only. *)
Definition blank (s : string) : bool := forallb is_space (code_points s).

(** The fields a split of a trimmed text yields, given the words of the
    text: the words, or one empty field when there is no word. *)
Definition fields_of_words (ws : list string) : list string :=
  match ws with
  | [] => [""]
  | _ => ws
  end.

(** A hit as the data model describes it: a JSON object whose [doc_path],
    when it has one, is a string. *)
Definition hit_object (r : val) : bool :=
  match r with
  | VObj fs =>
      match assoc "doc_path" fs with
      | VStr _ | VUndef | VNull => true
      | _ => false
      end
  | _ => false
  end.

(** A number [n] rounded to the nearest integer [z]: [|n - z| <= 1/2]. *)
Definition nearest_integer (n : number) (z : Z) : Prop :=
  (2 * Z.abs (mant n - z * 10 ^ Z.of_nat (scale n)) <= 10 ^ Z.of_nat (scale n))%Z.

(** The characters of a string, to say which ones occur in it. *)
Definition chars (s : string) : list ascii := list_ascii_of_string s.

(** A text that cannot open or close a tag: no [<] and no [>] in it. *)
Definition inert (s : string) : Prop :=
  ~ In "<"%char (chars s) /\ ~ In ">"%char (chars s).

(** A word: at least one character, none of them white space. *)
Definition is_word (w : string) : bool :=
  negb (w =? "")%string && forallb (fun c => negb (is_space c)) (code_points w).

(** A value [pick] passes over: [undefined], [null] or the empty string. *)
Definition no_value (v : val) : bool :=
  match v with
  | VUndef | VNull => true
  | VStr s => (s =? "")%string
  | _ => false
  end.

(** A path segment: no slash and no backslash in it. *)
Definition is_segment (t : string) : Prop :=
  forall c, In c (chars t) -> is_path_sep c = false.

(** What [safe] makes of one character. *)
Definition escaped (c : ascii) : string :=
  if Ascii.eqb c "&" then "&amp;"
  else if Ascii.eqb c "<" then "&lt;"
  else if Ascii.eqb c ">" then "&gt;"
  else String c "".

(** What an HTML parser reads back from text in which the only entities are
    those [safe] writes: [&amp;], [&lt;] and [&gt;] decoded. *)
Fixpoint unescape (s : string) : string :=
  match s with
  | EmptyString => ""
  | String c s' =>
      if Ascii.eqb c "&" then
        match s' with
        | String a1 (String a2 (String a3 r3)) =>
            if Ascii.eqb a1 "l" && Ascii.eqb a2 "t" && Ascii.eqb a3 ";"
            then String "<" (unescape r3)
            else if Ascii.eqb a1 "g" && Ascii.eqb a2 "t" && Ascii.eqb a3 ";"
            then String ">" (unescape r3)
            else
              match r3 with
              | String a4 r4 =>
                  if Ascii.eqb a1 "a" && Ascii.eqb a2 "m" && Ascii.eqb a3 "p"
                     && Ascii.eqb a4 ";"
                  then String "&" (unescape r4)
                  else String c (unescape s')
              | EmptyString => String c (unescape s')
              end
        | _ => String c (unescape s')
        end
      else String c (unescape s')
  end.

(** A run of [n] line feeds. *)
Fixpoint line_feeds (n : nat) : string :=
  match n with
  | O => ""
  | S n' => String "010" (line_feeds n')
  end.

(** A line of an answer: not empty, and no line feed in it. *)
Definition is_line (l : string) : Prop :=
  l <> "" /\ ~ In "010"%char (chars l).

(** An answer laid out in paragraphs: the lines of a paragraph are
    separated by single line feeds, and each further paragraph comes after a
    run of two or more line feeds ([2 + extra] of them). *)
Fixpoint laid_out (first : list string) (rest : list (nat * list string)) : string :=
  join (String "010" "") first
    +:+ match rest with
        | [] => ""
        | (extra, p) :: rest' => line_feeds (2 + extra) +:+ laid_out p rest'
        end.

(** The HTML the specification describes for it: the escaped lines of a
    paragraph joined by [<br/>], the paragraphs each in a [<p>] element. *)
Definition paragraph_html (lines : list string) : string :=
  join "<br/>" (map Chat.escape lines).

Definition paragraphs_html (first : list string) (rest : list (nat * list string))
  : string :=
  "<p>" +:+ join "</p><p>" (map paragraph_html (first :: map snd rest)) +:+ "</p>".

(** What [break_paragraphs] makes of a laid out text: the gaps become
    paragraph breaks, the single line feeds stay. *)
Fixpoint broken (first : list string) (rest : list (nat * list string)) : string :=
  join (String "010" "") first
    +:+ match rest with
        | [] => ""
        | (_, p) :: rest' => "</p><p>" +:+ broken p rest'
        end.

(** The value of a hexadecimal digit, as [hex_digit] writes them. *)
Definition unhex (c : ascii) : nat :=
  let n := nat_of_ascii c in
  if (n <? 58)%nat then n - 48 else n - 55.

(** [decodeURIComponent] on what [encodeURIComponent] writes: [%XX] read
    back as the byte [XX]. *)
Fixpoint decodeURIComponent (s : string) : string :=
  match s with
  | EmptyString => ""
  | String c s' =>
      if Ascii.eqb c "%" then
        match s' with
        | String h (String l r) =>
            String (ascii_of_nat (16 * unhex h + unhex l)) (decodeURIComponent r)
        | _ => String c (decodeURIComponent s')
        end
      else String c (decodeURIComponent s')
  end.

End SpecSide.

(** ** Concrete pages, hits and responses *)
Module Examples.
Import JS Http.

(** A 200 response carrying the JSON value [v]. *)
Definition json_ok (v : val) : outcome :=
  Received (Response 200 (Some "") (Ok v)).

(** A request that does not get through. *)
Definition unreachable : outcome :=
  NetworkError (TypeError "Failed to fetch").

(** A 404 whose body is a plain message, and a 500 whose body cannot be
    read. *)
Definition not_found : response :=
  Response 404 (Some "no such thread") (Throw (Err "SyntaxError" "Unexpected token")).

Definition server_error : response :=
  Response 500 None (Throw (Err "SyntaxError" "Unexpected end of JSON input")).

Definition uuid (n : nat) : string := "id-" +:+ nat_to_string n.

(** A no-break space (U+00A0) and an ideographic space (U+3000). *)
Definition nbsp : string := bytes [194; 160].
Definition wide_space : string := bytes [227; 128; 128].

(** A line separator (U+2028). *)
Definition line_separator : string := bytes [226; 128; 168].

(** The search page with its three views, nothing stored yet. *)
Definition search_page (quota : nat) : Search.page :=
  Search.Page (Search.Url "https://vetus.example" "/search" []) []
    [Search.HOME; Search.RESULTS; Search.THREAD] (Some Search.HOME)
    (Some "") false (Some "") (Some "") (Some [])
    (Search.ThreadDom "" "" "" "" []) (Storage ∅ quota) uuid 0 (fun _ => None).

Definition budget_hit : val :=
  VObj [("thread_id", VStr "T1"); ("subject", VStr "Re: budget");
        ("score", VNum (Num 876 1))].

Definition pdf_hit : val :=
  VObj [("doc_path", VStr "/docs/a.pdf"); ("paragraph", VStr "lorem ipsum")].

(** A source with a paragraph and neither [thread_id] nor [doc_path]. *)
Definition paragraph_source : val :=
  VObj [("paragraph", VStr "lorem ipsum")].

Definition lookup_response (hits : list val) : outcome :=
  json_ok (VObj [("results", VArr hits)]).

Definition thread_response (ids : list val) : outcome :=
  json_ok (VObj [("subject", VStr "Re: budget"); ("email_ids", VArr ids)]).

(** The chat page showing the welcome message, [text] typed in. *)
Definition chat_page (text : string) (quota : nat) : Chat.page :=
  Chat.Page "https://vetus.example" text
    [Chat.AssistantMsg "Vetus Assistant"
       (Chat.Html "<p>Hi! Ask a question and I’ll search your email threads for answers.</p>" [])]
    (Storage ∅ quota) uuid 0.

End Examples.

(** * Properties *)

Import JS Http Async SpecSide Examples.

(** ** Strings: characters, trimming and splitting *)

Lemma append_cons c (s t : string) : String c s +:+ t = String c (s +:+ t).
Proof. reflexivity. Qed.

Lemma append_nil_l (s : string) : "" +:+ s = s.
Proof. reflexivity. Qed.

Lemma append_assoc_string (s t u : string) : (s +:+ t) +:+ u = s +:+ (t +:+ u).
Proof.
  induction s as [|c s IH]; [reflexivity|]. rewrite !append_cons. now f_equal.
Qed.

Lemma append_empty_r (s : string) : s +:+ "" = s.
Proof.
  induction s as [|c s IH]; [reflexivity|]. rewrite append_cons. now f_equal.
Qed.

(** ** Characters *)

Lemma code_points_cons c d s :
  code_points (String c (String d s))
  = if continuation d then
      match code_points (String d s) with
      | p :: ps => String c p :: ps
      | [] => [String c ""]
      end
    else String c "" :: code_points (String d s).
Proof. reflexivity. Qed.

(** The first character of a text begins with its first byte. *)
Lemma code_points_head d s :
  exists r ps, code_points (String d s) = String d r :: ps /\ all_continuation r = true.
Proof.
  revert d. induction s as [|e s IH]; intros d; [now exists "", []|].
  rewrite code_points_cons. destruct (continuation e) eqn:He.
  - destruct (IH e) as (r & ps & -> & Hr). exists (String e r), ps.
    split; [reflexivity|]. cbn [all_continuation]. now rewrite He, Hr.
  - eexists "", _. split; reflexivity.
Qed.

Lemma implode_code_points s : implode (code_points s) = s.
Proof.
  induction s as [|c s IH]; [reflexivity|]. destruct s as [|d s]; [reflexivity|].
  rewrite code_points_cons. destruct (continuation d).
  - destruct (code_points (String d s)) as [|p ps]; [discriminate|].
    cbn [implode] in *. now rewrite append_cons, IH.
  - cbn [implode]. now rewrite IH.
Qed.

Lemma well_formed_code_points s : well_formed (code_points s).
Proof.
  induction s as [|c s [IHc IHb]]; [split; constructor|].
  destruct s as [|d s]; [split; repeat constructor|].
  rewrite code_points_cons.
  destruct (code_points_head d s) as (r & ps & Hcp & Hr). rewrite Hcp in *.
  destruct (continuation d) eqn:Hd.
  - split.
    + inversion IHc; subst. constructor; [|assumption].
      cbn [character all_continuation]. now rewrite Hd, Hr.
    + exact IHb.
  - split.
    + constructor; [reflexivity | exact IHc].
    + cbn [tail]. constructor; [cbn; now rewrite Hd | exact IHb].
Qed.

(** A character followed by a text that begins at a boundary is the first
    character of the whole. *)
Lemma code_points_character c t :
  character c = true -> t = "" \/ boundary t = true ->
  code_points (c +:+ t) = c :: code_points t.
Proof.
  destruct c as [|a r]; [discriminate|]. cbn [character]. revert a.
  induction r as [|b r IH]; intros a Hr Ht.
  - rewrite append_cons, append_nil_l. destruct t as [|d t]; [reflexivity|].
    rewrite code_points_cons. destruct Ht as [Ht|Ht]; [discriminate|].
    cbn [boundary] in Ht. now destruct (continuation d).
  - cbn [all_continuation] in Hr. apply andb_prop in Hr as [Hb Hr].
    rewrite !append_cons, code_points_cons, Hb.
    rewrite <- append_cons, (IH b Hr Ht). reflexivity.
Qed.

Lemma well_formed_tail c l : well_formed (c :: l) -> well_formed l.
Proof.
  intros [Hc Hb]. inversion Hc; subst. split; [assumption|].
  cbn [tail] in Hb. destruct l; [constructor|]. now inversion Hb.
Qed.

Lemma code_points_implode l : well_formed l -> code_points (implode l) = l.
Proof.
  induction l as [|c l IH]; intros Hwf; [reflexivity|].
  cbn [implode]. destruct Hwf as [Hc Hb]. pose proof (well_formed_tail c l (conj Hc Hb)) as Hl.
  inversion Hc as [|? ? Hcc Hcl]; subst.
  rewrite code_points_character; [now rewrite IH | exact Hcc |].
  destruct l as [|d l]; [now left|]. right. cbn [tail] in Hb. inversion Hb as [|? ? Hd _]; subst.
  destruct d as [|a r]; [discriminate|]. exact Hd.
Qed.

Lemma well_formed_trimStart l : well_formed l -> well_formed (trimStart l).
Proof.
  induction l as [|c l IH]; intros Hwf; [exact Hwf|].
  cbn [trimStart]. destruct (is_space c); [|exact Hwf].
  apply IH. now apply well_formed_tail in Hwf.
Qed.

Lemma trimEnd_head c l :
  trimEnd (c :: l) = [] \/ exists t, trimEnd (c :: l) = c :: t.
Proof.
  cbn [trimEnd]. destruct (trimEnd l); [destruct (is_space c)|]; eauto.
Qed.

Lemma well_formed_trimEnd l : well_formed l -> well_formed (trimEnd l).
Proof.
  induction l as [|c l IH]; intros Hwf; [exact Hwf|].
  pose proof (IH (well_formed_tail _ _ Hwf)) as [Hc' Hb'].
  destruct Hwf as [Hc Hb]. inversion Hc as [|? ? Hcc _]; subst.
  cbn [trimEnd]. destruct l as [|d l].
  - cbn [trimEnd]. destruct (is_space c); split; repeat constructor; assumption.
  - destruct (trimEnd_head d l) as [E | [t E]]; rewrite E in *.
    + destruct (is_space c); split; repeat constructor; assumption.
    + split; [now constructor|]. cbn [tail] in *. inversion Hb; subst.
      constructor; assumption.
Qed.

Lemma character_nonempty c : character c = true -> c <> "".
Proof. now destruct c. Qed.

Lemma implode_empty l :
  Forall (fun c => character c = true) l -> implode l = "" -> l = [].
Proof.
  destruct l as [|c l]; [reflexivity|]. intros Hc. inversion Hc as [|? ? Hcc _]; subst.
  destruct c; [discriminate|]. discriminate.
Qed.

(** ** Trimming and splitting *)

Lemma trimEnd_cons_word c l :
  is_space c = false -> trimEnd (c :: l) = c :: trimEnd l.
Proof.
  intros Hc. cbn [trimEnd]. rewrite Hc. now destruct (trimEnd l).
Qed.

Lemma trimEnd_cons_space c l :
  is_space c = true ->
  trimEnd (c :: l)
  = match trimEnd l with
    | [] => []
    | t => c :: t
    end.
Proof.
  intros Hc. cbn [trimEnd]. now rewrite Hc.
Qed.

Lemma trimEnd_empty_blank l : trimEnd l = [] -> forallb is_space l = true.
Proof.
  induction l as [|c l IH]; [reflexivity|].
  cbn [trimEnd forallb]. destruct (trimEnd l) eqn:Ht.
  - destruct (is_space c); [intros _; now rewrite IH | discriminate].
  - discriminate.
Qed.

Lemma blank_trimEnd l : forallb is_space l = true -> trimEnd l = [].
Proof.
  induction l as [|c l IH]; [reflexivity|].
  cbn [trimEnd forallb]. intros [Hc Hs]%andb_prop. now rewrite (IH Hs), Hc.
Qed.

Lemma blank_trimStart l : forallb is_space l = true -> trimStart l = [].
Proof.
  induction l as [|c l IH]; [reflexivity|].
  cbn [trimStart forallb]. intros [Hc Hs]%andb_prop. rewrite Hc. auto.
Qed.

Lemma blank_words l : forallb is_space l = true -> words l = [].
Proof.
  induction l as [|c l IH]; [reflexivity|].
  cbn [words forallb]. intros [Hc Hs]%andb_prop. rewrite Hc. auto.
Qed.

Lemma words_blank l : words l = [] -> forallb is_space l = true.
Proof.
  induction l as [|c l IH]; [reflexivity|].
  cbn [words forallb]. destruct (is_space c); [exact IH|].
  destruct l as [|d l']; [discriminate|].
  destruct (is_space d); [discriminate|].
  destruct (words (d :: l')); discriminate.
Qed.

Lemma trimStart_shape l :
  trimStart l = [] \/ exists c t, trimStart l = c :: t /\ is_space c = false.
Proof.
  induction l as [|c l IH]; [now left|].
  cbn [trimStart]. destruct (is_space c) eqn:Hc; [exact IH|].
  right. eauto.
Qed.

Lemma words_trimStart l : words (trimStart l) = words l.
Proof.
  induction l as [|c l IH]; [reflexivity|].
  cbn [trimStart]. destruct (is_space c) eqn:Hc.
  - rewrite IH. cbn [words]. now rewrite Hc.
  - reflexivity.
Qed.

(** An input is empty or white space only exactly when it trims to the
    empty string. *)
Lemma blank_trim s : blank s = true <-> trim s = "".
Proof.
  unfold trim, blank. split.
  - intros H. now rewrite (blank_trimStart _ H).
  - intros H. apply implode_empty in H.
    + apply trimEnd_empty_blank, blank_words in H.
      rewrite words_trimStart in H. now apply words_blank.
    + apply well_formed_trimEnd, well_formed_trimStart, well_formed_code_points.
Qed.

Lemma words_cons_space c l :
  is_space c = true -> words (c :: l) = words l.
Proof.
  intros Hc. cbn [words]. now rewrite Hc.
Qed.

Lemma words_cons_word c l :
  is_space c = false -> words (c :: l) <> [].
Proof.
  intros Hc. cbn [words]. rewrite Hc.
  destruct l as [|d l']; [discriminate|].
  destruct (is_space d); [discriminate|].
  destruct (words (d :: l')); discriminate.
Qed.

Lemma split_space c l :
  is_space c = true ->
  split_ws_from true (c :: l) = split_ws_from true l
  /\ split_ws_from false (c :: l) = "" :: split_ws_from true l.
Proof.
  intros Hc. cbn [split_ws_from]. rewrite Hc. split; reflexivity.
Qed.

Lemma split_trimEnd l :
  split_ws_from true (trimEnd l) = fields_of_words (words l)
  /\ split_ws_from false (trimEnd l)
     = match l with
       | [] => [""]
       | c :: _ =>
           if is_space c then
             match trimEnd l with
             | [] => [""]
             | _ => "" :: words l
             end
           else words l
       end.
Proof.
  induction l as [|c l [IHt IHf]]; [split; reflexivity|].
  destruct (is_space c) eqn:Hc.
  - rewrite (trimEnd_cons_space _ _ Hc).
    rewrite (words_cons_space _ _ Hc).
    destruct (trimEnd l) as [|e t] eqn:Ht.
    + apply trimEnd_empty_blank, blank_words in Ht. rewrite Ht. split; reflexivity.
    + destruct (split_space c (e :: t) Hc) as [-> ->]. rewrite IHt.
      assert (Hne : words l <> []).
      { intros H%words_blank%blank_trimEnd. congruence. }
      destruct (words l); [congruence|]. split; reflexivity.
  - rewrite (trimEnd_cons_word _ _ Hc).
    assert (Hf : split_ws_from false (c :: trimEnd l) = words (c :: l)).
    { cbn [split_ws_from words]. rewrite Hc, IHf.
      destruct l as [|d l']; [now rewrite append_empty_r|].
      destruct (is_space d) eqn:Hd.
      - destruct (trimEnd (d :: l')) eqn:Ht; [|now rewrite append_empty_r].
        apply trimEnd_empty_blank, blank_words in Ht. rewrite Ht.
        now rewrite append_empty_r.
      - reflexivity. }
    split.
    + transitivity (split_ws_from false (c :: trimEnd l)).
      * cbn [split_ws_from]. now rewrite Hc.
      * rewrite Hf. pose proof (words_cons_word c l Hc).
        now destruct (words (c :: l)).
    + exact Hf.
Qed.

Lemma code_points_trim s :
  code_points (trim s) = trimEnd (trimStart (code_points s)).
Proof.
  apply code_points_implode, well_formed_trimEnd, well_formed_trimStart,
    well_formed_code_points.
Qed.

Lemma split_trim s : split_ws (trim s) = fields_of_words (spec_words s).
Proof.
  unfold split_ws, spec_words. rewrite code_points_trim.
  rewrite <- (words_trimStart (code_points s)).
  destruct (trimStart_shape (code_points s)) as [H | (c & t & H & Hc)]; rewrite H.
  - reflexivity.
  - destruct (split_trimEnd (c :: t)) as [_ Hf]. rewrite Hf, Hc.
    pose proof (words_cons_word c t Hc). now destruct (words (c :: t)).
Qed.

(** [cutToWords] refines the truncation of the specification. *)
Lemma cutToWords_spec (text : string) (maxWords : nat) :
  1 <= maxWords \/ blank text = false ->
  Search.cutToWords (VStr text) maxWords = spec_truncate text maxWords.
Proof.
  intros Hn. unfold Search.cutToWords, spec_truncate, slice0.
  cbn [to_string]. rewrite split_trim.
  destruct (spec_words text) as [|w ws] eqn:Hw; [|reflexivity].
  destruct Hn as [Hn | Hb].
  - destruct maxWords as [|[|n]]; [lia| |]; reflexivity.
  - unfold spec_words in Hw. apply words_blank in Hw. unfold blank in Hb. congruence.
Qed.

(** The same for the text of any value that is not [undefined]. *)
Lemma cutToWords_spec_value (v : val) (maxWords : nat) :
  v <> VUndef -> 1 <= maxWords ->
  Search.cutToWords v maxWords = spec_truncate (to_string v) maxWords.
Proof.
  intros Hv Hn. rewrite <- (cutToWords_spec (to_string v) maxWords) by now left.
  unfold Search.cutToWords. now destruct v.
Qed.

(** With a limit of no word at all a blank text is cut to the ellipsis
    alone: the split of an empty string has one field. *)
Example cutToWords_blank_zero : Search.cutToWords (VStr "  ") 0 = "…".
Proof. reflexivity. Qed.

(** ** Numbers: rounding *)

(** [Math.round] yields an integer nearest to its argument. *)
Lemma Math_round_nearest (n : number) : nearest_integer n (Math_round n).
Proof.
  unfold nearest_integer, Math_round.
  set (p := (10 ^ Z.of_nat (scale n))%Z).
  assert (Hp : (0 < p)%Z) by (apply Z.pow_pos_nonneg; lia).
  pose proof (Z.mul_div_le (2 * mant n + p) (2 * p) ltac:(lia)) as Hlo.
  pose proof (Z.mul_succ_div_gt (2 * mant n + p) (2 * p) ltac:(lia)) as Hhi.
  lia.
Qed.

(** ** The JSON client wrapper *)

(** C7. On a non-success status [fetchJSON] throws an error whose message is
    the body text when that text is not empty, and "Request failed: <status>"
    when the body is empty or cannot be read; on a success status it returns
    the parsed JSON value. *)
Theorem C7_fetchJSON_contract (res : response) :
  (ok res = false ->
   forall t, text_body res = Some t -> t <> "" ->
   fetchJSON (Received res) = Throw (Error t))
  /\ (ok res = false ->
      text_body res = Some "" \/ text_body res = None ->
      fetchJSON (Received res)
      = Throw (Error ("Request failed: " +:+ nat_to_string (status res))))
  /\ (ok res = true ->
      forall v, json_body res = Ok v -> fetchJSON (Received res) = Ok v).
Proof.
  unfold fetchJSON, text_or_empty. repeat split.
  - intros -> t -> Ht. simpl.
    destruct (String.eqb_spec t ""); [contradiction | reflexivity].
  - intros -> [-> | ->]; reflexivity.
  - intros -> v ->. reflexivity.
Qed.

Lemma C7_fetchJSON_witness :
  fetchJSON (Received not_found) = Throw (Error "no such thread")
  /\ fetchJSON (Received server_error) = Throw (Error "Request failed: 500")
  /\ fetchJSON (json_ok (VStr "pong")) = Ok (VStr "pong").
Proof.
  split; [|split].
  - apply (proj1 (C7_fetchJSON_contract not_found));
      [reflexivity | reflexivity | discriminate].
  - exact (proj1 (proj2 (C7_fetchJSON_contract server_error))
             eq_refl (or_intror eq_refl)).
  - apply (proj2 (proj2 (C7_fetchJSON_contract _))); reflexivity.
Defined.

(** ** Empty submissions *)

(** A listener that has returned issues no request, whatever arrives later. *)
Lemma done_requests {S} (s : S) os :
  requests (Done s) os = [] /\ resume (Done s) os = Done s.
Proof. destruct os; split; reflexivity. Qed.

(** C8. Submitting an empty or white-space-only input does nothing at any of
    the three forms: the chat form adds no message and no placeholder, sends no
    request and leaves the input as it is; the home and results forms leave
    the URL alone and start no lookup. *)
Theorem C8_blank_submit_is_noop :
  (forall (pg : Chat.page) os,
     blank (Chat.input pg) = true ->
     requests (Chat.submit pg) os = [] /\ resume (Chat.submit pg) os = Done pg)
  /\ (forall (pg : Search.page) v os,
        Search.home_query pg = Some v -> blank v = true ->
        requests (Search.home_submit pg) os = []
        /\ resume (Search.home_submit pg) os = Done pg)
  /\ (forall (pg : Search.page) v os,
        Search.results_query pg = Some v -> blank v = true ->
        requests (Search.results_submit pg) os = []
        /\ resume (Search.results_submit pg) os = Done pg).
Proof.
  split; [|split].
  - intros pg os Hblank%blank_trim. unfold Chat.submit. rewrite Hblank.
    apply done_requests.
  - intros pg v os Hinput Hblank%blank_trim.
    unfold Search.home_submit, Search.search_submit. rewrite Hinput, Hblank.
    apply done_requests.
  - intros pg v os Hinput Hblank%blank_trim.
    unfold Search.results_submit, Search.search_submit. rewrite Hinput, Hblank.
    apply done_requests.
Qed.

Lemma C8_blank_submit_witness :
  resume (Chat.submit (chat_page (" " +:+ nbsp +:+ wide_space) 8)) [unreachable]
  = Done (chat_page (" " +:+ nbsp +:+ wide_space) 8)
  /\ requests (Search.home_submit (search_page 8)) [] = []
  /\ Search.location (state_of (resume (Search.results_submit (search_page 8)) []))
     = Search.location (search_page 8).
Proof.
  destruct C8_blank_submit_is_noop as (Hchat & Hhome & Hresults).
  split; [|split].
  - apply (Hchat (chat_page (" " +:+ nbsp +:+ wide_space) 8) [unreachable]). reflexivity.
  - apply (Hhome (search_page 8) "" []); reflexivity.
  - rewrite (proj2 (Hresults (search_page 8) "" [] eq_refl eq_refl)). reflexivity.
Defined.

(** ** Truncation *)

(** C6. [cutToWords] keeps the first [maxWords] words of the text joined by
    single spaces and appends the ellipsis exactly when the text has more
    than [maxWords] words (for a limit of at least one word, or a text that
    has a word); a thread card's snippet is the topic line cut to 60 words and
    a document card's snippet the paragraph cut to 80 words. *)
Theorem C6_snippet_truncation (text : string) (maxWords : nat) :
  1 <= maxWords \/ blank text = false ->
  Search.cutToWords (VStr text) maxWords = spec_truncate text maxWords
  /\ (forall u r tid,
        Search.snippet (Search.thread_card u r tid)
        = Search.escape (spec_truncate (Search.topicLine r) 60))
  /\ (forall r title docId,
        Search.snippet (Search.doc_card r title docId)
        = Search.escape
            (spec_truncate (to_string (or_else (field r "paragraph") (VStr ""))) 80)).
Proof.
  intros Hn. split; [now apply cutToWords_spec|]. split.
  - intros u r tid. cbn [Search.thread_card Search.snippet Search.safe to_string].
    rewrite cutToWords_spec by (left; lia). reflexivity.
  - intros r title docId. cbn [Search.doc_card Search.snippet Search.safe to_string].
    rewrite cutToWords_spec_value; [reflexivity | | lia].
    unfold or_else. destruct (truthy (field r "paragraph")) eqn:Ht; [|discriminate].
    intros Hu. now rewrite Hu in Ht.
Qed.

Lemma C6_snippet_truncation_witness :
  Search.cutToWords (VStr ("  one" +:+ nbsp +:+ "two   three ")) 2 = "one two…".
Proof.
  exact (proj1 (C6_snippet_truncation ("  one" +:+ nbsp +:+ "two   three ") 2
                  (or_introl (le_S 1 1 (le_n 1))))).
Defined.

(** ** Results view *)

Lemma get_object fs k : get (VObj fs) k = Ok (assoc k fs).
Proof. reflexivity. Qed.

(** A well-formed hit is rendered without an exception, and rendering it
    leaves the summary line and the presence of the list as they are. *)
Lemma render_hit_object r pg cards :
  hit_object r = true ->
  exists pg',
    Search.render_hit r pg cards = Ok pg'
    /\ Search.results_summary pg' = Search.results_summary pg
    /\ (Search.results_list pg = Some cards -> is_Some (Search.results_list pg')).
Proof.
  destruct r as [| | | | |?|fs]; try discriminate. unfold hit_object.
  intros Hp. unfold Search.render_hit. rewrite get_object. cbn [mbind result_bind].
  destruct (truthy (assoc "thread_id" fs)); [exists pg; auto|].
  unfold Search.doc_title. cbn [field].
  destruct (truthy (assoc "doc_path" fs)) eqn:Ht; [|exists pg; auto].
  destruct (truthy (assoc "doc_name" fs)).
  - eexists. split; [reflexivity|]. split; [reflexivity|]. intros _. now eexists.
  - destruct (assoc "doc_path" fs); try discriminate.
    eexists. split; [reflexivity|]. split; [reflexivity|]. intros _. now eexists.
Qed.

Lemma render_hits_objects hits : forall pg,
  Forall (fun r => hit_object r = true) hits ->
  snd (Search.render_hits hits pg) = None
  /\ Search.results_summary (fst (Search.render_hits hits pg))
     = Search.results_summary pg.
Proof.
  induction hits as [|r hits IH]; intros pg Hall; [split; reflexivity|].
  inversion Hall as [|? ? Hr Hrest]; subst. simpl.
  destruct (Search.results_list pg) as [cards|] eqn:Hl; [|split; reflexivity].
  destruct (render_hit_object r pg cards Hr) as (pg' & -> & Hs & _).
  rewrite <- Hs. apply IH, Hrest.
Qed.

(** What the summary line reads for [n] hits. *)
Lemma summary_line_cases hits :
  Search.summary_line hits
  = match length hits with
    | 0 => "No matching results found."
    | 1 => "1 matching result"
    | n => nat_to_string n +:+ " matching results"
    end.
Proof.
  unfold Search.summary_line.
  destruct (length hits) as [|[|n]]; reflexivity.
Qed.

(** C4. For a lookup response [data] whose hits are well-formed, the summary
    line that [showResults] leaves reads "No matching results found." when
    the results field is an empty array, absent or not an array, "1 matching
    result" for one hit and "<n> matching results" for two or more. *)
Theorem C4_summary_line (query : string) (pg : Search.page) (o : outcome)
    (data results : val) :
  Search.has_view Search.RESULTS pg = true ->
  fetchJSON o = Ok data ->
  get data "results" = Ok results ->
  Forall (fun r => hit_object r = true) (array_or_empty results) ->
  Search.results_summary (state_of (resume (Search.showResults query pg) [o]))
  = Search.assign
      (match length (array_or_empty results) with
       | 0 => "No matching results found."
       | 1 => "1 matching result"
       | n => nat_to_string n +:+ " matching results"
       end)
      (Search.results_summary pg).
Proof.
  intros Hview Hfetch Hget Hhits. unfold Search.showResults. rewrite Hview.
  cbn [negb resume state_of]. rewrite Hfetch.
  unfold Search.lookup_settled, Search.render_results. rewrite Hget.
  set (hits := array_or_empty results) in *.
  set (pg1 := Search.set_summary _ _).
  destruct (render_hits_objects hits pg1 Hhits) as [Hnone Hsum].
  destruct (Search.render_hits hits pg1) as [pg2 e]. cbn in Hnone, Hsum. subst e.
  rewrite Hsum. subst pg1. rewrite <- summary_line_cases.
  cbn. now destruct (Search.results_summary pg).
Qed.

Lemma C4_summary_line_witness :
  Search.results_summary
    (state_of (resume (Search.showResults "budget" (search_page 8))
                 [lookup_response [budget_hit; pdf_hit]]))
  = Some "2 matching results".
Proof.
  refine (C4_summary_line "budget" (search_page 8)
            (lookup_response [budget_hit; pdf_hit])
            (VObj [("results", VArr [budget_hit; pdf_hit])])
            (VArr [budget_hit; pdf_hit]) _ eq_refl eq_refl _).
  - reflexivity.
  - repeat constructor.
Defined.

(** The same summary line for no hit, an absent field, a field that is not
    an array, and one hit. *)
Example summary_line_examples :
  map (fun o => Search.results_summary
                  (state_of (resume (Search.showResults "q" (search_page 8)) [o])))
      [lookup_response [];
       json_ok (VObj []);
       json_ok (VObj [("results", VStr "none")]);
       lookup_response [pdf_hit]]
  = [Some "No matching results found.";
     Some "No matching results found.";
     Some "No matching results found.";
     Some "1 matching result"].
Proof. reflexivity. Qed.

(** A hit that is not an object: [null] ends the loop with a [TypeError],
    and the [catch] writes the error over the summary line. *)
Example summary_line_after_exception :
  Search.results_summary
    (state_of (resume (Search.showResults "q" (search_page 8))
                 [lookup_response [VNull]]))
  = Some "Error: Cannot read properties of null (reading 'thread_id')".
Proof. reflexivity. Qed.

(** *** Thread hits *)

(** The score pill of a hit whose score is a number reads the score rounded
    to the nearest integer. *)
Lemma scorePill_rounds r n :
  field r "score" = VNum n ->
  exists z, nearest_integer n z
            /\ Search.scorePill r
               = ["score: " +:+ number_to_string (Num z 0) +:+ "%"].
Proof.
  intros H. exists (Math_round n). split; [apply Math_round_nearest|].
  unfold Search.scorePill. now rewrite H.
Qed.

(** The card filled in for a thread hit links to the thread view. *)
Lemma thread_card_link u r tid :
  Search.href (Search.thread_card u r tid)
  = Search.origin u +:+ Search.pathname u +:+ "?mode=thread&id="
      +:+ encodeURIComponent (to_string tid).
Proof. reflexivity. Qed.

(** A turn of the loop at a thread hit leaves the page as it is: the card is
    not appended. *)
Lemma render_thread_hit r pg cards tid :
  get r "thread_id" = Ok tid -> truthy tid = true ->
  Search.render_hit r pg cards = Ok pg.
Proof.
  intros Hget Ht. unfold Search.render_hit. rewrite Hget.
  cbn [mbind result_bind]. now rewrite Ht.
Qed.

Lemma render_thread_hits hits : forall pg,
  Forall (fun r => exists tid, get r "thread_id" = Ok tid /\ truthy tid = true) hits ->
  Search.render_hits hits pg = (pg, None).
Proof.
  induction hits as [|r hits IH]; intros pg Hall; [reflexivity|].
  inversion Hall as [|? ? (tid & Hget & Ht) Hrest]; subst. simpl.
  destruct (Search.results_list pg) as [cards|]; [|reflexivity].
  rewrite (render_thread_hit r pg cards tid Hget Ht). now apply IH.
Qed.

(** C1 (the code departs from it). For the hit of the specification's own
    example the card is filled in as the claim says, with the link
    [?mode=thread&id=T1] and the pill [score: 88%], and the result list stays
    empty under the summary "1 matching result": no card is appended for a
    thread hit. *)
Theorem C1_thread_card_not_appended :
  Search.thread_card (Search.location (search_page 8)) budget_hit (VStr "T1")
  = Search.Card "https://vetus.example/search?mode=thread&id=T1" "Re: budget"
      ["T1"; "score: 88%"] "(No Topic)" None
  /\ Search.results_summary
       (state_of (resume (Search.showResults "budget" (search_page 8))
                    [lookup_response [budget_hit]]))
     = Some "1 matching result"
  /\ Search.results_list
       (state_of (resume (Search.showResults "budget" (search_page 8))
                    [lookup_response [budget_hit]]))
     = Some [].
Proof. repeat split. Qed.

(** *** Document hits and the staging record *)

Lemma setItem_throws_unstored k v st e :
  setItem k v st = Throw e -> items st !! k = None /\ try_setItem k v st = st.
Proof.
  unfold try_setItem, setItem.
  destruct (items st !! k) eqn:Hk.
  - rewrite bool_decide_eq_true_2 by eauto. discriminate.
  - intros H. split; [reflexivity|].
    destruct (_ || _); [discriminate | reflexivity].
Qed.

(** C10. When writing the staging record of a document hit throws, the
    exception is swallowed: the results renderer still appends the card, and
    the chat's sources renderer still returns the pill, whose link carries the
    minted id, while the store holds no record under that id. *)
Theorem C10_unstored_staging_record :
  (forall fs (pg : Search.page) cards title e,
     let r := VObj fs in
     let docId := Search.randomUUID pg (Search.minted pg) in
     truthy (assoc "thread_id" fs) = false ->
     truthy (assoc "doc_path" fs) = true ->
     Search.doc_title r = Ok title ->
     setItem ("docview:" +:+ docId) (Search.doc_payload r title)
       (Search.localStorage pg) = Throw e ->
     exists pg',
       Search.render_hit r pg cards = Ok pg'
       /\ Search.results_list pg' = Some (cards ++ [Search.doc_card r title docId])
       /\ Search.href (Search.doc_card r title docId)
          = "/doc?id=" +:+ encodeURIComponent docId
       /\ Search.localStorage pg' = Search.localStorage pg
       /\ items (Search.localStorage pg') !! ("docview:" +:+ docId) = None)
  /\ (forall fs (pg : Chat.page) name e,
        let s := VObj fs in
        let id := Chat.randomUUID pg (Chat.minted pg) in
        Chat.classify s = Chat.DOC ->
        Chat.doc_name s = Ok name ->
        setItem ("docview:" +:+ id) (Chat.doc_payload s name)
          (Chat.localStorage pg) = Throw e ->
        exists pg',
          Chat.source_pill s pg = (pg', Ok (Chat.doc_pill s name id))
          /\ Chat.pill_href (Chat.doc_pill s name id) = "/doc?id=" +:+ id
          /\ Chat.localStorage pg' = Chat.localStorage pg
          /\ items (Chat.localStorage pg') !! ("docview:" +:+ id) = None).
Proof.
  split.
  - intros fs pg cards title e r docId Htid Hpath Htitle Hset.
    destruct (setItem_throws_unstored _ _ _ _ Hset) as [Hnone Htry].
    exists (Search.set_list (cards ++ [Search.doc_card r title docId])
              (Search.with_storage (Search.localStorage pg) (S (Search.minted pg)) pg)).
    split; [|repeat split; exact Hnone].
    unfold Search.render_hit. subst r. rewrite get_object.
    cbn [mbind result_bind field]. rewrite Htid, Hpath, Htitle.
    cbn [mbind result_bind]. fold docId. now rewrite Htry.
  - intros fs pg name e s id Hdoc Hname Hset.
    destruct (setItem_throws_unstored _ _ _ _ Hset) as [Hnone Htry].
    exists (Chat.with_storage (Chat.localStorage pg) (S (Chat.minted pg)) pg).
    split; [|repeat split; exact Hnone].
    unfold Chat.source_pill. subst s. rewrite get_object, Hdoc.
    cbn zeta. rewrite Hname. fold id.
    cbn [Chat.with_storage Chat.localStorage Chat.minted]. now rewrite Htry.
Qed.

Lemma C10_unstored_staging_record_witness :
  (exists pg',
     Search.render_hit pdf_hit (search_page 0) [] = Ok pg'
     /\ Search.results_list pg'
        = Some [Search.Card "/doc?id=id-0" "a.pdf" [] "lorem ipsum" (Some "/docs/a.pdf")]
     /\ items (Search.localStorage pg') !! "docview:id-0" = None)
  /\ (exists pg',
        Chat.source_pill pdf_hit (chat_page "" 0)
        = (pg', Ok (Chat.Pill "/doc?id=id-0" "a.pdf" "" ""))
        /\ items (Chat.localStorage pg') !! "docview:id-0" = None).
Proof.
  destruct C10_unstored_staging_record as [Hsearch Hchat]. split.
  - destruct (Hsearch [("doc_path", VStr "/docs/a.pdf"); ("paragraph", VStr "lorem ipsum")]
                (search_page 0) [] (VStr "a.pdf") QuotaExceededError
                eq_refl eq_refl eq_refl eq_refl) as (pg' & H1 & H2 & _ & _ & H3).
    exists pg'. auto.
  - destruct (Hchat [("doc_path", VStr "/docs/a.pdf"); ("paragraph", VStr "lorem ipsum")]
                (chat_page "" 0) (VStr "a.pdf") QuotaExceededError
                eq_refl eq_refl eq_refl) as (pg' & H1 & _ & _ & H3).
    exists pg'. auto.
Defined.

(** ** Chat: sources *)

(** C3 as stated fails: a source with a paragraph and neither [thread_id] nor
    [doc_path] is not skipped, it gets a document pill labelled "Document";
    the results renderer does skip the same hit. *)
Lemma C3_paragraph_source_gets_pill :
  snd (Chat.source_pills [paragraph_source] (chat_page "" 8))
  = Ok [Chat.Pill "/doc?id=id-0" "Document" "" ""]
  /\ Search.render_hit paragraph_source (search_page 8) [] = Ok (search_page 8).
Proof. split; reflexivity. Qed.

(** C3, amended. In the chat's sources a source with a [thread_id] gets a
    thread pill linking to that thread, and a source without [thread_id] that
    has a [doc_path] or a [paragraph] gets a document pill linking to the
    minted id, labelled "Document" when a paragraph is all it has. *)
Theorem C3_source_classification (fs : list (string * val)) (pg : Chat.page) :
  (truthy (assoc "thread_id" fs) = true ->
   Chat.source_pill (VObj fs) pg = (pg, Ok (Chat.thread_pill (Chat.origin pg) (VObj fs)))
   /\ Chat.pill_href (Chat.thread_pill (Chat.origin pg) (VObj fs))
      = Chat.threadUrl (Chat.origin pg) (assoc "thread_id" fs))
  /\ (truthy (assoc "thread_id" fs) = false ->
      truthy (assoc "doc_path" fs) || truthy (assoc "paragraph" fs) = true ->
      forall name, Chat.doc_name (VObj fs) = Ok name ->
      snd (Chat.source_pill (VObj fs) pg)
      = Ok (Chat.doc_pill (VObj fs) name (Chat.randomUUID pg (Chat.minted pg)))
      /\ Chat.pill_href (Chat.doc_pill (VObj fs) name (Chat.randomUUID pg (Chat.minted pg)))
         = "/doc?id=" +:+ Chat.randomUUID pg (Chat.minted pg))
  /\ (truthy (assoc "thread_id" fs) = false ->
      truthy (assoc "doc_path" fs) = false ->
      truthy (assoc "doc_name" fs) = false ->
      truthy (assoc "paragraph" fs) = true ->
      Chat.doc_name (VObj fs) = Ok (VStr "Document")).
Proof.
  split; [|split].
  - intros Ht. split; [|reflexivity].
    unfold Chat.source_pill, Chat.classify. rewrite get_object.
    cbn [field]. now rewrite Ht.
  - intros Ht Hd name Hname. split; [|reflexivity].
    unfold Chat.source_pill, Chat.classify. rewrite get_object.
    cbn [field]. rewrite Ht, Hd. cbn [negb andb]. cbn zeta.
    now rewrite Hname.
  - intros _ Hp Hn _. unfold Chat.doc_name. cbn [field]. now rewrite Hn, Hp.
Qed.

Lemma C3_source_classification_witness :
  Chat.source_pill budget_hit (chat_page "" 8)
  = (chat_page "" 8,
     Ok (Chat.Pill "https://vetus.example/search?mode=thread&id=T1" "Re: budget" " (88%)" ""))
  /\ snd (Chat.source_pill paragraph_source (chat_page "" 8))
     = Ok (Chat.Pill "/doc?id=id-0" "Document" "" "").
Proof.
  split.
  - exact (proj1 (proj1 (C3_source_classification
                           [("thread_id", VStr "T1"); ("subject", VStr "Re: budget");
                            ("score", VNum (Num 876 1))] (chat_page "" 8)) eq_refl)).
  - exact (proj1 (proj1 (proj2 (C3_source_classification
                                  [("paragraph", VStr "lorem ipsum")] (chat_page "" 8)))
                    eq_refl eq_refl (VStr "Document") eq_refl)).
Defined.

(** A source with none of [thread_id], [doc_path] and [paragraph] falls into
    the thread branch. *)
Example source_without_discriminant :
  snd (Chat.source_pill (VObj [("score", VNum (Num 5 0))]) (chat_page "" 8))
  = Ok (Chat.Pill "https://vetus.example/search?mode=thread&id=undefined" "" " (5%)" "").
Proof. reflexivity. Qed.

(** ** Chat: the two phases *)

Lemma submit_awaits_rewrite (pg : Chat.page) :
  trim (Chat.input pg) <> "" ->
  pending (Chat.submit pg) = Some (Chat.rewrite_request (trim (Chat.input pg))).
Proof.
  intros Hne. unfold Chat.submit.
  destruct (String.eqb_spec (trim (Chat.input pg)) ""); [contradiction|].
  reflexivity.
Qed.

(** Once the rewrite phase has left an object in [rewriteResp], the answer
    request goes out with the submitted text and the resolved query. *)
Lemma submit_awaits_answer (pg : Chat.page) (o : outcome) answer :
  trim (Chat.input pg) <> "" ->
  get (Chat.rewrite_response (trim (Chat.input pg)) (fetchJSON o)) "answer"
  = Ok answer ->
  pending (resume (Chat.submit pg) [o])
  = Some (Chat.rag_request (trim (Chat.input pg))
            (Chat.resolved_query answer (trim (Chat.input pg)))).
Proof.
  intros Hne Hresp. unfold Chat.submit.
  destruct (String.eqb_spec (trim (Chat.input pg)) ""); [contradiction|].
  cbn [Chat.addAssistantMessage resume]. unfold Chat.rewrite_settled.
  rewrite Hresp. reflexivity.
Qed.

(** When the rewrite call fails, the answer call is still made, with the
    submitted text as [user_input]; its query is that text put through
    [stripWrapperQuotes]. *)
Lemma rewrite_failure_falls_back (pg : Chat.page) (o : outcome) e :
  trim (Chat.input pg) <> "" ->
  fetchJSON o = Throw e ->
  pending (resume (Chat.submit pg) [o])
  = Some (Chat.rag_request (trim (Chat.input pg))
            (Chat.resolved_query (VStr (trim (Chat.input pg))) (trim (Chat.input pg)))).
Proof.
  intros Hne Hfail.
  apply (submit_awaits_answer pg o (VStr (trim (Chat.input pg))) Hne).
  now rewrite Hfail.
Qed.

Lemma alter_last {A} (f : A -> A) (l : list A) (x : A) :
  alter f (length l) (l ++ [x]) = l ++ [f x].
Proof.
  replace (length l) with (length l + 0) by lia. now rewrite alter_app_r.
Qed.

(** While the answer call is awaited after a failed rewrite, the transcript
    ends with the user's message and the placeholder, which shows the
    resolved query and still the typing indicator: no error is shown. *)
Lemma rewrite_failure_shows_no_error (pg : Chat.page) (o : outcome) e :
  trim (Chat.input pg) <> "" ->
  fetchJSON o = Throw e ->
  Chat.messages (state_of (resume (Chat.submit pg) [o]))
  = Chat.messages pg
      ++ [Chat.UserMsg (Chat.safe (VStr (trim (Chat.input pg))));
          Chat.AssistantMsg
            (Chat.query_meta
               (Chat.resolved_query (VStr (trim (Chat.input pg))) (trim (Chat.input pg))))
            Chat.Typing].
Proof.
  intros Hne Hfail. unfold Chat.submit.
  destruct (String.eqb_spec (trim (Chat.input pg)) ""); [contradiction|].
  cbn [Chat.addAssistantMessage resume]. unfold Chat.rewrite_settled.
  rewrite Hfail. cbn [Chat.rewrite_response get assoc String.eqb Ascii.eqb Bool.eqb].
  cbn [state_of]. unfold Chat.update_message, Chat.addUserMessage.
  cbn [Chat.messages Chat.with_messages Chat.with_input].
  rewrite !alter_last. cbn [Chat.set_content Chat.set_meta].
  now rewrite <- app_assoc.
Qed.

(** A text that is not wrapped in quotes is its own resolved query. *)
Lemma resolved_query_unwrapped (val : string) :
  trim val = val -> Chat.match_wrapped val = None ->
  Chat.resolved_query (VStr val) val = val.
Proof.
  intros Htrim Hm. unfold Chat.resolved_query, or_else, Chat.stripWrapperQuotes.
  destruct (truthy (VStr val)) eqn:Ht.
  - cbn [to_string]. rewrite Htrim, Hm. now destruct (val =? "")%string.
  - reflexivity.
Qed.

(** C5 (the code departs from it). The user submits the text
    ['refund policy'], quotes included, and the rewrite call fails: the
    answer call is made, with the submitted text as [user_input], but its
    query is [refund policy], the text without its quotes. *)
Theorem C5_quoted_input_loses_quotes :
  requests (Chat.submit (chat_page "'refund policy'" 8)) [unreachable]
  = [Chat.rewrite_request "'refund policy'";
     Chat.rag_request "'refund policy'" "refund policy"].
Proof. reflexivity. Qed.

(** C9. The resolved query is the submitted text also when the rewrite call
    succeeds with an answer that is absent, empty, made of white space only,
    or empty once trimmed and stripped of its quotes. *)
Theorem C9_fallback_on_empty_answer (pg : Chat.page) (o : outcome)
    (resp answer : val) :
  trim (Chat.input pg) <> "" ->
  fetchJSON o = Ok resp ->
  get resp "answer" = Ok answer ->
  answer = VUndef
  \/ answer = VStr ""
  \/ (exists s, answer = VStr s /\ blank s = true)
  \/ Chat.stripWrapperQuotes (trim (to_string (or_else answer (VStr "")))) = "" ->
  pending (resume (Chat.submit pg) [o])
  = Some (Chat.rag_request (trim (Chat.input pg)) (trim (Chat.input pg))).
Proof.
  intros Hne Hfetch Hget Hanswer.
  rewrite (submit_awaits_answer pg o answer Hne) by now rewrite Hfetch.
  do 2 f_equal. unfold Chat.resolved_query.
  assert (Hempty : Chat.stripWrapperQuotes
                     (trim (to_string (or_else answer (VStr "")))) = "").
  { destruct Hanswer as [-> | [-> | [(s & -> & Hs) | H]]]; try reflexivity; [|exact H].
    unfold or_else. destruct (truthy (VStr s)); cbn [to_string];
      [|reflexivity].
    apply blank_trim in Hs. now rewrite Hs. }
  now rewrite Hempty.
Qed.

Lemma C9_fallback_on_empty_answer_witness :
  pending (resume (Chat.submit (chat_page "What is our refund policy?" 8))
             [json_ok (VObj [("answer", VStr "  ''  ")])])
  = Some (Chat.rag_request "What is our refund policy?" "What is our refund policy?")
  /\ pending (resume (Chat.submit (chat_page (nbsp +:+ "refunds ") 8))
                [json_ok (VObj [("answer", VStr (wide_space +:+ nbsp))])])
     = Some (Chat.rag_request "refunds" "refunds").
Proof.
  split.
  - refine (C9_fallback_on_empty_answer (chat_page "What is our refund policy?" 8)
              (json_ok (VObj [("answer", VStr "  ''  ")]))
              (VObj [("answer", VStr "  ''  ")]) (VStr "  ''  ") _ eq_refl eq_refl _).
    + discriminate.
    + right. right. right. reflexivity.
  - refine (C9_fallback_on_empty_answer (chat_page (nbsp +:+ "refunds ") 8)
              (json_ok (VObj [("answer", VStr (wide_space +:+ nbsp))]))
              (VObj [("answer", VStr (wide_space +:+ nbsp))])
              (VStr (wide_space +:+ nbsp)) _ eq_refl eq_refl _).
    + discriminate.
    + right. right. left. eexists. split; reflexivity.
Defined.

(** ** Thread view: the order of the email fetches *)

Lemma insert_last {A} (l : list A) (x y : A) :
  <[pred (length (l ++ [x])) := y]> (l ++ [x]) = l ++ [y].
Proof.
  rewrite length_app. cbn [length]. replace (pred (length l + 1)) with (length l + 0) by lia.
  now rewrite insert_app_r.
Qed.

Lemma settle_last_item it eid pg :
  Search.emails_list
    (Search.thread (Search.replace_last_item it
                      (Search.append_item (Search.placeholder eid) pg)))
  = Search.emails_list (Search.thread pg) ++ [it].
Proof. cbn. apply insert_last. Qed.

(** While the outcomes of the emails [pre] are delivered, the loop reaches
    the turn of the next email [eid]: the items of [pre] are settled, the
    placeholder of [eid] is the last item, and the loop awaits [eid]. *)
Lemma emails_loop_turn pre : forall pg os eid post,
  length os = length pre ->
  pending (resume (Search.emails_loop (pre ++ eid :: post) pg) os)
  = Some (Search.email_request eid)
  /\ Search.emails_list
       (Search.thread (state_of (resume (Search.emails_loop (pre ++ eid :: post) pg) os)))
     = Search.emails_list (Search.thread pg)
         ++ zip_with (Search.settled_item (Search.date_to_locale pg)) pre os
         ++ [Search.placeholder eid].
Proof.
  induction pre as [|e pre IH]; intros pg os eid post Hlen.
  - destruct os; [|discriminate]. split; reflexivity.
  - destruct os as [|o os]; [discriminate|]. injection Hlen as Hlen.
    cbn [app Search.emails_loop resume].
    destruct (IH (Search.replace_last_item
                    (Search.settled_item (Search.date_to_locale
                                            (Search.append_item (Search.placeholder e) pg)) e o)
                    (Search.append_item (Search.placeholder e) pg)) os eid post Hlen)
      as [Hp Hl].
    split; [exact Hp|]. rewrite Hl, settle_last_item.
    cbn [zip_with]. rewrite <- app_assoc. reflexivity.
Qed.

(** Once every email has settled the loop is over, with one settled item per
    email. *)
Lemma emails_loop_done ids : forall pg os,
  length os = length ids ->
  exists pg',
    resume (Search.emails_loop ids pg) os = Done pg'
    /\ Search.emails_list (Search.thread pg')
       = Search.emails_list (Search.thread pg)
           ++ zip_with (Search.settled_item (Search.date_to_locale pg)) ids os.
Proof.
  induction ids as [|e ids IH]; intros pg os Hlen.
  - destruct os; [|discriminate]. exists pg. split; [reflexivity|].
    now rewrite app_nil_r.
  - destruct os as [|o os]; [discriminate|]. injection Hlen as Hlen.
    cbn [Search.emails_loop resume].
    destruct (IH (Search.replace_last_item
                    (Search.settled_item (Search.date_to_locale
                                            (Search.append_item (Search.placeholder e) pg)) e o)
                    (Search.append_item (Search.placeholder e) pg)) os Hlen)
      as (pg' & Hr & Hl).
    exists pg'. split; [exact Hr|]. rewrite Hl, settle_last_item.
    cbn [zip_with]. rewrite <- app_assoc. reflexivity.
Qed.

(** [showThread] up to the loop, for a thread whose metadata arrived. *)
Lemma showThread_reaches_loop pg threadId o threadResp topic ids os :
  Search.has_view Search.THREAD pg = true ->
  truthy threadId = true ->
  fetchJSON o = Ok threadResp ->
  get threadResp "topic" = Ok topic ->
  Search.iterate (field threadResp "email_ids") = Ok ids ->
  exists pg1,
    resume (Search.showThread threadId pg) (o :: os)
    = resume (Search.emails_loop ids pg1) os
    /\ Search.emails_list (Search.thread pg1) = []
    /\ Search.date_to_locale pg1 = Search.date_to_locale pg.
Proof.
  intros Hview Hid Hfetch Htopic Hids. unfold Search.showThread.
  rewrite Hview, Hid. cbn [negb resume]. rewrite Hfetch.
  unfold Search.thread_settled. rewrite Htopic, Hids.
  eexists. split; [reflexivity|]. split; reflexivity.
Qed.

(** The requests the loop has issued by then: one per email up to [eid], in
    order, none for a later email. *)
Lemma emails_loop_requests pre : forall pg os eid post,
  length os = length pre ->
  requests (Search.emails_loop (pre ++ eid :: post) pg) os
  = map Search.email_request (pre ++ [eid]).
Proof.
  induction pre as [|e pre IH]; intros pg os eid post Hlen.
  - destruct os; [reflexivity | discriminate].
  - destruct os as [|o os]; [discriminate|]. injection Hlen as Hlen.
    cbn [app Search.emails_loop requests map]. f_equal. now apply IH.
Qed.

Lemma showThread_requests pg threadId o threadResp topic ids os :
  Search.has_view Search.THREAD pg = true ->
  truthy threadId = true ->
  fetchJSON o = Ok threadResp ->
  get threadResp "topic" = Ok topic ->
  Search.iterate (field threadResp "email_ids") = Ok ids ->
  exists pg1,
    requests (Search.showThread threadId pg) (o :: os)
    = Search.thread_request threadId :: requests (Search.emails_loop ids pg1) os.
Proof.
  intros Hview Hid Hfetch Htopic Hids. unfold Search.showThread.
  rewrite Hview, Hid. cbn [negb requests]. rewrite Hfetch.
  unfold Search.thread_settled. rewrite Htopic, Hids.
  eexists. reflexivity.
Qed.

(** C2 as stated fails: with two emails in the thread and the first email's
    fetch still pending, the list holds the first placeholder only and no
    request for the second email has been issued. *)
Lemma C2_second_email_waits :
  Search.emails_list
    (Search.thread
       (state_of (resume (Search.showThread (VStr "T1") (search_page 8))
                    [thread_response [VStr "e1"; VStr "e2"]])))
  = [Search.placeholder (VStr "e1")]
  /\ requests (Search.showThread (VStr "T1") (search_page 8))
       [thread_response [VStr "e1"; VStr "e2"]]
     = [Search.thread_request (VStr "T1"); Search.email_request (VStr "e1")].
Proof. split; reflexivity. Qed.

(** C2, amended. For a thread whose metadata fetch succeeds the emails are
    handled one at a time in the order of the id sequence: when the emails
    before [eid] have settled, whatever their outcomes, their items are
    filled in, the placeholder of [eid] has just been rendered as the last
    item and the loop awaits the fetch of [eid], no later email having an item
    or a request yet; a fetch that fails marks its own item as failed; and
    when all have settled the list holds one settled item per email. *)
Theorem C2_emails_load_in_sequence (pg : Search.page) (threadId : val)
    (o : outcome) (threadResp topic : val) (ids : list val) :
  Search.has_view Search.THREAD pg = true ->
  truthy threadId = true ->
  fetchJSON o = Ok threadResp ->
  get threadResp "topic" = Ok topic ->
  Search.iterate (field threadResp "email_ids") = Ok ids ->
  (forall pre eid post os,
     ids = pre ++ eid :: post -> length os = length pre ->
     pending (resume (Search.showThread threadId pg) (o :: os))
     = Some (Search.email_request eid)
     /\ Search.emails_list
          (Search.thread (state_of (resume (Search.showThread threadId pg) (o :: os))))
        = zip_with (Search.settled_item (Search.date_to_locale pg)) pre os
            ++ [Search.placeholder eid]
     /\ requests (Search.showThread threadId pg) (o :: os)
        = Search.thread_request threadId
            :: map Search.email_request (pre ++ [eid]))
  /\ (forall os,
        length os = length ids ->
        exists pg',
          resume (Search.showThread threadId pg) (o :: os) = Done pg'
          /\ Search.emails_list (Search.thread pg')
             = zip_with (Search.settled_item (Search.date_to_locale pg)) ids os)
  /\ (forall eid o' e,
        fetchJSON o' = Throw e ->
        Search.settled_item (Search.date_to_locale pg) eid o'
        = Search.EmailItem "Loading date…" (Search.safe eid) Search.FailedContent).
Proof.
  intros Hview Hid Hfetch Htopic Hids. split; [|split].
  - intros pre eid post os -> Hlen.
    destruct (showThread_reaches_loop pg threadId o _ _ _ os Hview Hid Hfetch Htopic Hids)
      as (pg1 & -> & Hnil & Hloc).
    destruct (emails_loop_turn pre pg1 os eid post Hlen) as [Hp Hl].
    split; [exact Hp|]. split; [now rewrite Hl, Hnil, Hloc|].
    destruct (showThread_requests pg threadId o _ _ _ os Hview Hid Hfetch Htopic Hids)
      as (pg2 & ->).
    now rewrite emails_loop_requests.
  - intros os Hlen.
    destruct (showThread_reaches_loop pg threadId o _ _ _ os Hview Hid Hfetch Htopic Hids)
      as (pg1 & -> & Hnil & Hloc).
    destruct (emails_loop_done ids pg1 os Hlen) as (pg' & Hr & Hl).
    exists pg'. split; [exact Hr|]. now rewrite Hl, Hnil, Hloc.
  - intros eid o' e Hfail. unfold Search.settled_item. now rewrite Hfail.
Qed.

Lemma C2_emails_load_in_sequence_witness :
  pending (resume (Search.showThread (VStr "T1") (search_page 8))
             [thread_response [VStr "e1"; VStr "e2"]; unreachable])
  = Some (Search.email_request (VStr "e2"))
  /\ Search.emails_list
       (Search.thread
          (state_of (resume (Search.showThread (VStr "T1") (search_page 8))
                       [thread_response [VStr "e1"; VStr "e2"]; unreachable])))
     = [Search.EmailItem "Loading date…" "e1" Search.FailedContent;
        Search.placeholder (VStr "e2")].
Proof.
  refine (let H := proj1 (C2_emails_load_in_sequence (search_page 8) (VStr "T1")
                  (thread_response [VStr "e1"; VStr "e2"])
                  (VObj [("subject", VStr "Re: budget");
                         ("email_ids", VArr [VStr "e1"; VStr "e2"])])
                  VUndef [VStr "e1"; VStr "e2"]
                  eq_refl eq_refl eq_refl eq_refl eq_refl)
           [VStr "e1"] (VStr "e2") [] [unreachable] eq_refl eq_refl
          in conj (proj1 H) (proj1 (proj2 H))).
Defined.

(** * Further properties of the two scripts *)

(** ** Escaping *)

Lemma chars_app s t : chars (s +:+ t) = chars s ++ chars t.
Proof.
  unfold chars. induction s as [|c s IH]; [reflexivity|].
  rewrite append_cons. cbn [list_ascii_of_string app]. now rewrite IH.
Qed.

Lemma replace_all_app c by_ s t :
  replace_all c by_ (s +:+ t) = replace_all c by_ s +:+ replace_all c by_ t.
Proof.
  induction s as [|d s IH]; [reflexivity|].
  simpl. rewrite IH. now rewrite append_assoc_string.
Qed.

Lemma replace_all_other c by_ d :
  d <> c -> replace_all c by_ (String d "") = String d "".
Proof.
  intros Hd. cbn [replace_all]. now destruct (Ascii.eqb_spec d c).
Qed.

(** [safe] works character by character. *)
Lemma escape_cons c s :
  Search.escape (String c s) = escaped c +:+ Search.escape s.
Proof.
  unfold Search.escape, escaped. cbn [replace_all].
  rewrite !replace_all_app.
  destruct (Ascii.eqb_spec c "&") as [->|Hamp]; [reflexivity|].
  destruct (Ascii.eqb_spec c "<") as [->|Hlt]; [reflexivity|].
  destruct (Ascii.eqb_spec c ">") as [->|Hgt]; [reflexivity|].
  now rewrite (replace_all_other "<" "&lt;" c), (replace_all_other ">" "&gt;" c).
Qed.

Lemma chat_escape s : Chat.escape s = Search.escape s.
Proof. reflexivity. Qed.

Lemma escape_inert s : inert (Search.escape s).
Proof.
  induction s as [|c s [IH1 IH2]]; [split; intros []|].
  unfold inert. rewrite escape_cons, chars_app. unfold escaped.
  destruct (Ascii.eqb_spec c "&") as [->|Hamp];
    [|destruct (Ascii.eqb_spec c "<") as [->|Hlt];
      [|destruct (Ascii.eqb_spec c ">") as [->|Hgt]]];
    split; intros Hin; apply in_app_or in Hin;
    destruct Hin as [Hin|Hin]; try tauto; cbn in Hin;
    repeat (destruct Hin as [Hin|Hin]; [congruence|]); exact Hin.
Qed.

(** X1. Text put through [safe] holds no [<] and no [>], in either script:
    it cannot open or close a tag. *)
Theorem safe_has_no_markup (v : val) :
  ~ In "<"%char (chars (Search.safe v)) /\ ~ In ">"%char (chars (Search.safe v))
  /\ ~ In "<"%char (chars (Chat.safe v)) /\ ~ In ">"%char (chars (Chat.safe v)).
Proof.
  destruct (escape_inert (match v with VUndef => "" | _ => to_string v end)) as [H1 H2].
  repeat split; first [exact H1 | exact H2].
Qed.

Lemma unescape_escaped c s : unescape (escaped c +:+ s) = String c (unescape s).
Proof.
  unfold escaped.
  destruct (Ascii.eqb_spec c "&") as [->|Hamp]; [reflexivity|].
  destruct (Ascii.eqb_spec c "<") as [->|Hlt]; [reflexivity|].
  destruct (Ascii.eqb_spec c ">") as [->|Hgt]; [reflexivity|].
  rewrite append_cons. change ("" +:+ s) with s. cbn [unescape].
  destruct (Ascii.eqb_spec c "&"); [contradiction | reflexivity].
Qed.

(** X2. Decoding the three entities gives back the text [safe] was given,
    in either script: escaping loses nothing, so two different texts are never
    rendered alike. *)
Theorem unescape_escape (s : string) :
  unescape (Search.escape s) = s /\ unescape (Chat.escape s) = s.
Proof.
  assert (H : forall u, unescape (Search.escape u) = u).
  { induction u as [|c u IH]; [reflexivity|].
    now rewrite escape_cons, unescape_escaped, IH. }
  split; [apply H | exact (H s)].
Qed.

(** ** Routing *)

Lemma params_get_filter k k' l :
  k' <> k ->
  Search.params_get k' (List.filter (fun p => negb (fst p =? k)%string) l)
  = Search.params_get k' l.
Proof.
  intros Hne. induction l as [|[a v] l IH]; [reflexivity|].
  cbn [List.filter fst]. destruct (String.eqb_spec a k) as [->|Hak]; cbn [negb].
  - cbn [Search.params_get]. destruct (String.eqb_spec k k'); [congruence | exact IH].
  - cbn [Search.params_get]. now rewrite IH.
Qed.

Lemma params_get_set k v l : Search.params_get k (Search.params_set k v l) = VStr v.
Proof.
  induction l as [|[a w] l IH]; cbn [Search.params_set Search.params_get].
  - now rewrite String.eqb_refl.
  - destruct (String.eqb_spec a k) as [->|Hak]; cbn [Search.params_get].
    + now rewrite String.eqb_refl.
    + destruct (String.eqb_spec a k); [contradiction | exact IH].
Qed.

Lemma params_get_set_other k k' v l :
  k' <> k -> Search.params_get k' (Search.params_set k v l) = Search.params_get k' l.
Proof.
  intros Hne. induction l as [|[a w] l IH]; cbn [Search.params_set Search.params_get].
  - destruct (String.eqb_spec k k'); [congruence | reflexivity].
  - destruct (String.eqb_spec a k) as [->|Hak]; cbn [Search.params_get].
    + destruct (String.eqb_spec k k'); [congruence|]. now apply params_get_filter.
    + now rewrite IH.
Qed.

(** X3. Navigating and resolving the route from the URL that the navigation
    leaves (a reload, or coming back through the history) are the same run,
    for a query and for a thread: the URL carries all that [showResults] and
    [showThread] are given. *)
Theorem navigation_is_route_of_its_url (q id : string) (pg : Search.page) :
  Search.routeFromURL (Search.pushState Search.RESULTS "q" q pg)
  = Search.gotoResults q pg
  /\ Search.routeFromURL (Search.pushState Search.THREAD "id" id pg)
     = Search.gotoThread id pg.
Proof.
  split.
  - unfold Search.routeFromURL, Search.gotoResults.
    cbn [Search.pushState Search.with_location Search.location Search.search].
    rewrite params_get_set_other by discriminate. rewrite !params_get_set.
    cbn [Search.view_name]. f_equal.
    unfold or_else. cbn [truthy]. now destruct (String.eqb_spec q "").
  - unfold Search.routeFromURL, Search.gotoThread.
    cbn [Search.pushState Search.with_location Search.location Search.search].
    rewrite params_get_set_other by discriminate. rewrite !params_get_set.
    reflexivity.
Qed.

(** X4. The URL is the only input of the results route: with [mode=results]
    and [q=X] in the query string, the results view becomes the active view,
    its query field holds [X], the summary reads "Searching…", the list is
    emptied, and one lookup for [X] is awaited. *)
Theorem route_results_from_url (pg : Search.page) (X : string) :
  Search.has_view Search.RESULTS pg = true ->
  Search.params_get "mode" (Search.search (Search.location pg)) = VStr "results" ->
  Search.params_get "q" (Search.search (Search.location pg)) = VStr X ->
  pending (Search.routeFromURL pg) = Some (Search.lookup_request X)
  /\ Search.active (state_of (Search.routeFromURL pg)) = Some Search.RESULTS
  /\ Search.results_query (state_of (Search.routeFromURL pg))
     = Search.assign X (Search.results_query pg)
  /\ Search.results_summary (state_of (Search.routeFromURL pg))
     = Search.assign "Searching…" (Search.results_summary pg)
  /\ Search.results_list (state_of (Search.routeFromURL pg))
     = Search.assign [] (Search.results_list pg).
Proof.
  intros Hview Hmode Hq. unfold Search.routeFromURL. rewrite Hmode, Hq.
  assert (HX : to_string (or_else (VStr X) (VStr "")) = X).
  { unfold or_else. cbn [truthy]. now destruct (String.eqb_spec X ""). }
  rewrite HX. unfold Search.showResults. rewrite Hview. cbn [negb pending state_of].
  unfold Search.searching, Search.show. rewrite Hview. repeat split.
Qed.

Lemma route_results_from_url_witness :
  pending (Search.routeFromURL
             (Search.pushState Search.RESULTS "q" "budget" (search_page 8)))
  = Some (Search.lookup_request "budget").
Proof.
  exact (proj1 (route_results_from_url
                  (Search.pushState Search.RESULTS "q" "budget" (search_page 8))
                  "budget" eq_refl eq_refl eq_refl)).
Defined.

(** X5. With [mode=thread] and a non-empty [id=X] the thread view becomes
    the active view with its placeholders, and exactly one request, for the
    metadata of thread [X], is awaited. *)
Theorem route_thread_from_url (pg : Search.page) (X : string) :
  Search.has_view Search.THREAD pg = true ->
  Search.params_get "mode" (Search.search (Search.location pg)) = VStr "thread" ->
  Search.params_get "id" (Search.search (Search.location pg)) = VStr X ->
  X <> "" ->
  requests (Search.routeFromURL pg) [] = [Search.thread_request (VStr X)]
  /\ Search.active (state_of (Search.routeFromURL pg)) = Some Search.THREAD
  /\ Search.thread (state_of (Search.routeFromURL pg))
     = Search.ThreadDom "Loading…" "" "" "" [].
Proof.
  intros Hview Hmode Hid HX. unfold Search.routeFromURL. rewrite Hmode, Hid.
  unfold Search.showThread. rewrite Hview. cbn [negb truthy].
  destruct (String.eqb_spec X ""); [contradiction|]. cbn [negb requests state_of].
  unfold Search.loading_thread, Search.show. rewrite Hview. repeat split.
Qed.

Lemma route_thread_from_url_witness :
  requests (Search.routeFromURL
              (Search.pushState Search.THREAD "id" "T1" (search_page 8))) []
  = [Search.thread_request (VStr "T1")].
Proof.
  exact (proj1 (route_thread_from_url
                  (Search.pushState Search.THREAD "id" "T1" (search_page 8))
                  "T1" eq_refl eq_refl eq_refl ltac:(discriminate))).
Defined.

(** X6. A URL without [mode], and a thread URL without [id], end on the home
    view: it becomes the active view and no request is made. *)
Theorem route_falls_back_to_home (pg : Search.page) :
  Search.has_view Search.HOME pg = true ->
  (Search.params_get "mode" (Search.search (Search.location pg)) = VNull ->
   exists pg', Search.routeFromURL pg = Done pg'
               /\ Search.active pg' = Some Search.HOME
               /\ Search.home_focused pg' = bool_decide (is_Some (Search.home_query pg)))
  /\ (Search.has_view Search.THREAD pg = true ->
      Search.params_get "mode" (Search.search (Search.location pg)) = VStr "thread" ->
      Search.params_get "id" (Search.search (Search.location pg)) = VNull ->
      exists pg', Search.routeFromURL pg = Done pg'
                  /\ Search.active pg' = Some Search.HOME).
Proof.
  intros Hhome. split.
  - intros Hmode. unfold Search.routeFromURL. rewrite Hmode, Hhome.
    eexists. split; [reflexivity|]. unfold Search.show. rewrite Hhome. split; reflexivity.
  - intros Hthread Hmode Hid. unfold Search.routeFromURL. rewrite Hmode, Hid.
    unfold Search.showThread. rewrite Hthread. cbn [negb truthy].
    eexists. split; [reflexivity|]. unfold Search.show. now rewrite Hhome.
Qed.

Lemma route_falls_back_to_home_witness :
  (exists pg', Search.routeFromURL (search_page 8) = Done pg'
               /\ Search.active pg' = Some Search.HOME
               /\ Search.home_focused pg' = true)
  /\ (exists pg', Search.routeFromURL
                    (Search.pushState Search.THREAD "x" "1" (search_page 8)) = Done pg'
                  /\ Search.active pg' = Some Search.HOME).
Proof.
  split.
  - exact (proj1 (route_falls_back_to_home (search_page 8) eq_refl) eq_refl).
  - exact (proj2 (route_falls_back_to_home
                    (Search.pushState Search.THREAD "x" "1" (search_page 8)) eq_refl)
             eq_refl eq_refl eq_refl).
Defined.

(** X7. Submitting a search form with a text that is not blank navigates: the
    URL gets [mode=results] and [q] set to the trimmed text, one history entry
    is pushed, and the lookup for the trimmed text is awaited. *)
Theorem search_submit_navigates (pg : Search.page) (input : string) :
  blank input = false ->
  Search.has_view Search.RESULTS pg = true ->
  let p := Search.search_submit (Some input) pg in
  pending p = Some (Search.lookup_request (trim input))
  /\ Search.params_get "mode" (Search.search (Search.location (state_of p)))
     = VStr "results"
  /\ Search.params_get "q" (Search.search (Search.location (state_of p)))
     = VStr (trim input)
  /\ Search.entries (state_of p) = Search.location (state_of p) :: Search.entries pg.
Proof.
  intros Hblank Hview p. subst p. unfold Search.search_submit.
  destruct (String.eqb_spec (trim input) "") as [He|Hne].
  - apply blank_trim in He. congruence.
  - unfold Search.gotoResults, Search.showResults.
    assert (Hv : Search.has_view Search.RESULTS
                   (Search.pushState Search.RESULTS "q" (trim input) pg) = true)
      by exact Hview.
    rewrite Hv. cbn [negb pending state_of].
    cbn [Search.searching Search.show Search.with_results Search.with_active
         Search.location Search.entries Search.pushState Search.with_location
         Search.search].
    rewrite params_get_set_other by discriminate. rewrite !params_get_set.
    repeat split.
Qed.

Lemma search_submit_navigates_witness :
  pending (Search.search_submit (Some (nbsp +:+ " budget 2024 ")) (search_page 8))
  = Some (Search.lookup_request "budget 2024").
Proof.
  exact (proj1 (search_submit_navigates (search_page 8) (nbsp +:+ " budget 2024 ")
                  eq_refl eq_refl)).
Defined.

(** ** Results view: failure, staging records, skipped hits *)

(** X8. When the lookup fails, for whatever reason [fetchJSON] throws, the
    run ends with the summary line reading "Error: " and the message, the
    list empty, and nothing stored. *)
Theorem showResults_failure (query : string) (pg : Search.page) (o : outcome)
    (e : error) :
  Search.has_view Search.RESULTS pg = true ->
  fetchJSON o = Throw e ->
  exists pg',
    resume (Search.showResults query pg) [o] = Done pg'
    /\ Search.results_summary pg'
       = Search.assign ("Error: " +:+ message_or_string e) (Search.results_summary pg)
    /\ Search.results_list pg' = Search.assign [] (Search.results_list pg)
    /\ Search.localStorage pg' = Search.localStorage pg.
Proof.
  intros Hview Hfail. unfold Search.showResults. rewrite Hview.
  cbn [negb resume]. rewrite Hfail. eexists. split; [reflexivity|].
  cbn. destruct (Search.results_summary pg); repeat split.
Qed.

Lemma showResults_failure_witness :
  exists pg',
    resume (Search.showResults "budget" (search_page 8)) [Received server_error]
    = Done pg'
    /\ Search.results_summary pg' = Some "Error: Request failed: 500"
    /\ Search.results_list pg' = Some []
    /\ Search.localStorage pg' = Search.localStorage (search_page 8).
Proof.
  exact (showResults_failure "budget" (search_page 8) (Received server_error)
           (Error "Request failed: 500") eq_refl eq_refl).
Defined.

(** X9. When the store takes the write, a document hit leaves exactly one
    staging record, under the id its link carries: the card is appended, its
    link is [/doc?id=<id>], the record read back under [docview:<id>] is the
    hit's payload, every other key is as before, and the next hit gets the
    next id. *)
Theorem doc_hit_is_staged (fs : list (string * val)) (pg : Search.page)
    (cards : list Search.card) (title : val) (st : storage) :
  let r := VObj fs in
  let docId := Search.randomUUID pg (Search.minted pg) in
  truthy (assoc "thread_id" fs) = false ->
  truthy (assoc "doc_path" fs) = true ->
  Search.doc_title r = Ok title ->
  setItem ("docview:" +:+ docId) (Search.doc_payload r title) (Search.localStorage pg)
  = Ok st ->
  exists pg',
    Search.render_hit r pg cards = Ok pg'
    /\ Search.results_list pg' = Some (cards ++ [Search.doc_card r title docId])
    /\ Search.href (Search.doc_card r title docId)
       = "/doc?id=" +:+ encodeURIComponent docId
    /\ items (Search.localStorage pg') !! ("docview:" +:+ docId)
       = Some (Search.doc_payload r title)
    /\ (forall k, k <> "docview:" +:+ docId ->
                  items (Search.localStorage pg') !! k
                  = items (Search.localStorage pg) !! k)
    /\ Search.minted pg' = S (Search.minted pg).
Proof.
  intros r docId Htid Hpath Htitle Hset.
  exists (Search.set_list (cards ++ [Search.doc_card r title docId])
            (Search.with_storage st (S (Search.minted pg)) pg)).
  assert (Hst : st = Storage (<[("docview:" +:+ docId) := Search.doc_payload r title]>
                               (items (Search.localStorage pg)))
                       (quota (Search.localStorage pg))).
  { unfold setItem in Hset. destruct (_ || _); [now injection Hset | discriminate]. }
  split; [|split; [reflexivity|split; [reflexivity|]]].
  - unfold Search.render_hit. subst r. cbn [get mbind result_bind field].
    rewrite Htid, Hpath, Htitle. cbn [mbind result_bind]. fold docId.
    unfold try_setItem. now rewrite Hset.
  - cbn [Search.set_list Search.with_results Search.with_storage
         Search.localStorage Search.minted]. subst st. cbn [items].
    split; [apply lookup_insert_eq|]. split; [|reflexivity].
    intros k Hk. now apply lookup_insert_ne.
Qed.

Lemma doc_hit_is_staged_witness :
  exists pg',
    Search.render_hit pdf_hit (search_page 8) [] = Ok pg'
    /\ Search.results_list pg'
       = Some [Search.Card "/doc?id=id-0" "a.pdf" [] "lorem ipsum" (Some "/docs/a.pdf")]
    /\ items (Search.localStorage pg') !! "docview:id-0"
       = Some (VObj [("doc_name", VStr "a.pdf"); ("source", VStr "/docs/a.pdf");
                     ("paragraph", VStr "lorem ipsum")]).
Proof.
  destruct (doc_hit_is_staged
              [("doc_path", VStr "/docs/a.pdf"); ("paragraph", VStr "lorem ipsum")]
              (search_page 8) [] (VStr "a.pdf")
              (Storage (<["docview:id-0" :=
                          VObj [("doc_name", VStr "a.pdf"); ("source", VStr "/docs/a.pdf");
                                ("paragraph", VStr "lorem ipsum")]]> ∅) 8)
              eq_refl eq_refl eq_refl eq_refl) as (pg' & H1 & H2 & _ & H4 & _).
  exists pg'. auto.
Defined.

(** One turn of the loop at a well-formed hit without [thread_id]. *)
Lemma render_hit_without_thread r pg cards :
  hit_object r = true -> truthy (field r "thread_id") = false ->
  Search.results_list pg = Some cards ->
  exists pg' extra,
    Search.render_hit r pg cards = Ok pg'
    /\ Search.results_list pg' = Some (cards ++ extra)
    /\ length extra = (if truthy (field r "doc_path") then 1 else 0)
    /\ Search.minted pg' = Search.minted pg + length extra.
Proof.
  destruct r as [| | | | |?|fs]; try discriminate. unfold hit_object.
  intros Hp Ht Hl. cbn [field] in *. unfold Search.render_hit.
  cbn [get mbind result_bind field]. rewrite Ht.
  destruct (truthy (assoc "doc_path" fs)) eqn:Hd.
  - assert (Htitle : exists title, Search.doc_title (VObj fs) = Ok title).
    { unfold Search.doc_title. cbn [field].
      destruct (truthy (assoc "doc_name" fs)); [eauto|].
      destruct (assoc "doc_path" fs); try discriminate. eauto. }
    destruct Htitle as [title ->]. cbn [mbind result_bind].
    eexists _, [_]. split; [reflexivity|]. split; [reflexivity|].
    split; [reflexivity|]. cbn. lia.
  - exists pg, []. rewrite app_nil_r. cbn. repeat split; [exact Hl | lia].
Qed.

(** X10. Over well-formed hits that carry no [thread_id], the loop appends
    exactly one card per hit that has a [doc_path] and takes one id for each;
    a hit with neither [thread_id] nor [doc_path] adds nothing, and nothing is
    thrown. *)
Theorem one_card_per_document_hit (hits : list val) (pg : Search.page)
    (cards : list Search.card) :
  Search.results_list pg = Some cards ->
  Forall (fun r => hit_object r = true /\ truthy (field r "thread_id") = false) hits ->
  exists added,
    snd (Search.render_hits hits pg) = None
    /\ Search.results_list (fst (Search.render_hits hits pg)) = Some (cards ++ added)
    /\ length added
       = length (List.filter (fun r => truthy (field r "doc_path")) hits)
    /\ Search.minted (fst (Search.render_hits hits pg))
       = Search.minted pg + length added.
Proof.
  revert pg cards. induction hits as [|r hits IH]; intros pg cards Hl Hall.
  - exists []. rewrite app_nil_r. cbn. repeat split; [exact Hl | lia].
  - inversion Hall as [|? ? [Hobj Htid] Hrest]; subst.
    destruct (render_hit_without_thread r pg cards Hobj Htid Hl)
      as (pg1 & extra & Hr & Hl1 & Hlen & Hm).
    destruct (IH pg1 (cards ++ extra) Hl1 Hrest) as (added & Hnone & Hlist & Hcount & Hmint).
    exists (extra ++ added). cbn [Search.render_hits]. rewrite Hl, Hr.
    split; [exact Hnone|]. split; [now rewrite Hlist, app_assoc|].
    rewrite length_app, Hmint, Hm, Hcount, Hlen. cbn [List.filter].
    destruct (truthy (field r "doc_path")); cbn [length]; lia.
Qed.

Lemma one_card_per_document_hit_witness :
  exists added,
    snd (Search.render_hits [paragraph_source; pdf_hit; pdf_hit] (search_page 8)) = None
    /\ Search.results_list
         (fst (Search.render_hits [paragraph_source; pdf_hit; pdf_hit] (search_page 8)))
       = Some ([] ++ added)
    /\ length added = 2
    /\ Search.minted
         (fst (Search.render_hits [paragraph_source; pdf_hit; pdf_hit] (search_page 8)))
       = 0 + length added.
Proof.
  refine (one_card_per_document_hit [paragraph_source; pdf_hit; pdf_hit]
            (search_page 8) [] eq_refl _).
  repeat constructor.
Defined.

(** X11. A hit that is [null] ends the loop: the cards rendered before it stay
    in the list, the hits after it are not looked at, and the summary line is
    replaced by the error. *)
Theorem null_hit_ends_rendering (pre post : list val) (pg : Search.page)
    (cards : list Search.card) :
  Search.results_list pg = Some cards ->
  Forall (fun r => hit_object r = true) pre ->
  let e := TypeError "Cannot read properties of null (reading 'thread_id')" in
  Search.render_hits (pre ++ VNull :: post) pg
  = (fst (Search.render_hits pre pg), Some e)
  /\ Search.results_summary
       (Search.lookup_settled
          (Ok (VObj [("results", VArr (pre ++ VNull :: post))])) pg)
     = Search.assign ("Error: " +:+ emessage e) (Search.results_summary pg).
Proof.
  intros Hl Hpre e.
  assert (H : forall pg0 cards0, Search.results_list pg0 = Some cards0 ->
            Search.render_hits (pre ++ VNull :: post) pg0
            = (fst (Search.render_hits pre pg0), Some e)).
  { clear Hl pg cards. induction pre as [|r pre IH]; intros pg0 cards0 Hl0.
    - cbn. now rewrite Hl0.
    - inversion Hpre as [|? ? Hr Hrest]; subst.
      cbn [app Search.render_hits]. rewrite Hl0.
      destruct (render_hit_object r pg0 cards0 Hr) as (pg1 & -> & _ & Hsome).
      destruct (Hsome Hl0) as [cards1 Hl1]. now apply (IH Hrest pg1 cards1). }
  split; [now apply (H pg cards)|].
  unfold Search.lookup_settled, Search.render_results. cbn [get assoc String.eqb].
  cbn [array_or_empty].
  rewrite (H (Search.set_summary _ pg) cards) by exact Hl.
  unfold Search.results_error, Search.set_summary at 1.
  cbn [Search.results_summary Search.with_results].
  rewrite (proj2 (render_hits_objects pre _ Hpre)).
  cbn. now destruct (Search.results_summary pg).
Qed.

Lemma null_hit_ends_rendering_witness :
  Search.render_hits ([pdf_hit] ++ VNull :: [pdf_hit]) (search_page 8)
  = (fst (Search.render_hits [pdf_hit] (search_page 8)),
     Some (TypeError "Cannot read properties of null (reading 'thread_id')")).
Proof.
  refine (proj1 (null_hit_ends_rendering [pdf_hit] [pdf_hit] (search_page 8) []
                   eq_refl _)).
  repeat constructor.
Defined.

(** ** Pills *)

(** An integer below [1e21] is printed with all its digits. *)
Lemma number_to_string_integer (z : Z) :
  (Z.abs z < 10 ^ 21)%Z -> number_to_string (Num z 0) = Z_to_string z.
Proof.
  intros Hz. unfold number_to_string. cbn [mant scale normalize].
  now rewrite (proj2 (Z.ltb_lt _ _) Hz).
Qed.

Lemma Math_round_bound (n : number) :
  (Z.abs (Math_round n) <= Z.abs (mant n) + 1)%Z.
Proof.
  unfold Math_round. set (p := (10 ^ Z.of_nat (scale n))%Z). set (m := mant n).
  assert (Hp : (0 < p)%Z) by (subst p; apply Z.pow_pos_nonneg; lia).
  pose proof (Z.mul_div_le (2 * m + p) (2 * p) ltac:(lia)) as Hlo.
  pose proof (Z.mul_succ_div_gt (2 * m + p) (2 * p) ltac:(lia)) as Hhi.
  set (z := ((2 * m + p) / (2 * p))%Z) in *.
  assert (HA : (Z.abs m <= p * Z.abs m)%Z) by nia.
  assert (Hup : (z <= Z.abs m + 1)%Z).
  { destruct (Z_le_gt_dec z (Z.abs m + 1)) as [|Hgt]; [assumption|].
    assert (p * (Z.abs m + 2) <= p * z)%Z by (apply Z.mul_le_mono_nonneg_l; lia).
    lia. }
  assert (Hdown : (- Z.abs m - 1 <= z)%Z).
  { destruct (Z_le_gt_dec (- Z.abs m - 1) z) as [|Hgt]; [assumption|].
    assert (p * z <= p * (- Z.abs m - 2))%Z by (apply Z.mul_le_mono_nonneg_l; lia).
    lia. }
  lia.
Qed.

(** The rounding of an exact number is printed with all its digits. *)
Lemma rounded_exact (n : number) :
  exact n = true -> rounded n = Z_to_string (Math_round n).
Proof.
  intros He. apply Z.ltb_lt in He. apply number_to_string_integer.
  pose proof (Math_round_bound n). lia.
Qed.

(** X12. Both renderers show a numeric score of at most 15 significant
    digits as a whole percentage nearest to it, [score: z%] on a card and
    [ (z%)] on a source pill, and show nothing for a score that is not a
    number. *)
Theorem score_is_shown_rounded (r : val) :
  (forall n, field r "score" = VNum n -> exact n = true ->
     exists z, nearest_integer n z
               /\ Search.scorePill r = ["score: " +:+ Z_to_string z +:+ "%"]
               /\ Chat.score_text r = " (" +:+ Z_to_string z +:+ "%)")
  /\ (is_number (field r "score") = false ->
      Search.scorePill r = [] /\ Chat.score_text r = "").
Proof.
  split.
  - intros n Hn He. exists (Math_round n). split; [apply Math_round_nearest|].
    unfold Search.scorePill, Chat.score_text. now rewrite Hn, (rounded_exact n He).
  - intros Hn. unfold Search.scorePill, Chat.score_text.
    now destruct (field r "score").
Qed.

Lemma score_is_shown_rounded_witness :
  exists z, nearest_integer (Num 876 1) z
            /\ Search.scorePill budget_hit = ["score: " +:+ Z_to_string z +:+ "%"]
            /\ Chat.score_text budget_hit = " (" +:+ Z_to_string z +:+ "%)".
Proof.
  exact (proj1 (score_is_shown_rounded budget_hit) (Num 876 1) eq_refl eq_refl).
Defined.

(** X13. The emails pill of a thread card counts the emails: the count in
    [emails_count] (a whole number below [10^15]) or, when that is not a
    number, the length of the [emails] array; it reads "1 email" for one and
    "<k> emails" otherwise, and there is no pill when neither is there. *)
Theorem emails_pill_counts (r : val) :
  (forall k, exact (Num (Z.of_nat k) 0) = true ->
     field r "emails_count" = VNum (Num (Z.of_nat k) 0)
     \/ (is_number (field r "emails_count") = false
         /\ exists l, field r "emails" = VArr l /\ length l = k) ->
     Search.emailsPill r
     = [Z_to_string (Z.of_nat k) +:+ (if (k =? 1)%nat then " email" else " emails")])
  /\ (is_number (field r "emails_count") = false ->
      (forall l, field r "emails" <> VArr l) ->
      Search.emailsPill r = []).
Proof.
  assert (Hpill : forall k,
            exact (Num (Z.of_nat k) 0) = true ->
            Search.emailsCount r = VNum (Num (Z.of_nat k) 0) ->
            Search.emailsPill r
            = [Z_to_string (Z.of_nat k)
                 +:+ (if (k =? 1)%nat then " email" else " emails")]).
  { intros k He Hk. unfold Search.emailsPill. rewrite Hk.
    assert (Heq : number_is_one (Num (Z.of_nat k) 0) = (k =? 1)%nat).
    { unfold number_is_one. cbn [mant scale]. change (10 ^ Z.of_nat 0)%Z with 1%Z.
      destruct (Z.eqb_spec (Z.of_nat k) 1), (Nat.eqb_spec k 1); try reflexivity; lia. }
    rewrite Heq. apply Z.ltb_lt in He. cbn [mant] in He.
    rewrite number_to_string_integer by lia.
    now destruct (k =? 1)%nat. }
  split.
  - intros k He [Hk | (Hnum & l & Hl & Hlen)]; apply (Hpill k He);
      unfold Search.emailsCount.
    + now rewrite Hk.
    + rewrite Hnum, Hl. now subst k.
  - intros Hnum Harr. unfold Search.emailsPill, Search.emailsCount. rewrite Hnum.
    destruct (field r "emails") as [| | | | |l|]; try reflexivity.
    now destruct (Harr l).
Qed.

Lemma emails_pill_counts_witness :
  Search.emailsPill (VObj [("thread_id", VStr "T1"); ("emails", VArr [VNull])])
  = ["1 email"].
Proof.
  exact (proj1 (emails_pill_counts
                  (VObj [("thread_id", VStr "T1"); ("emails", VArr [VNull])])) 1
           eq_refl
           (or_intror (conj eq_refl (ex_intro _ [VNull] (conj eq_refl eq_refl))))).
Defined.

(** ** Thread view: failure, title, iteration *)

(** X14. When the metadata of the thread cannot be fetched, the title reads
    "Thread not found" and the run is over: no email is listed and no email
    is requested, whatever arrives later. *)
Theorem showThread_not_found (threadId : val) (pg : Search.page) (o : outcome)
    (e : error) (os : list outcome) :
  Search.has_view Search.THREAD pg = true ->
  truthy threadId = true ->
  fetchJSON o = Throw e ->
  exists pg',
    resume (Search.showThread threadId pg) (o :: os) = Done pg'
    /\ Search.thread pg' = Search.ThreadDom "Thread not found" "" "" "" []
    /\ requests (Search.showThread threadId pg) (o :: os)
       = [Search.thread_request threadId].
Proof.
  intros Hview Hid Hfail. unfold Search.showThread. rewrite Hview, Hid.
  cbn [negb resume requests]. rewrite Hfail. cbn [Search.thread_settled].
  eexists. split; [now destruct os|]. split; [reflexivity|]. now destruct os.
Qed.

Lemma showThread_not_found_witness :
  exists pg',
    resume (Search.showThread (VStr "T1") (search_page 8)) [Received not_found] = Done pg'
    /\ Search.thread pg' = Search.ThreadDom "Thread not found" "" "" "" []
    /\ requests (Search.showThread (VStr "T1") (search_page 8)) [Received not_found]
       = [Search.thread_request (VStr "T1")].
Proof.
  exact (showThread_not_found (VStr "T1") (search_page 8) (Received not_found)
           (Error "no such thread") [] eq_refl eq_refl eq_refl).
Defined.

(** The loop over the emails leaves the title and the blocks alone. *)
Lemma emails_loop_keeps_header ids : forall pg os,
  let t := Search.thread (state_of (resume (Search.emails_loop ids pg) os)) in
  Search.thread_title t = Search.thread_title (Search.thread pg)
  /\ Search.thread_topic t = Search.thread_topic (Search.thread pg)
  /\ Search.thread_detail1 t = Search.thread_detail1 (Search.thread pg)
  /\ Search.thread_detail2 t = Search.thread_detail2 (Search.thread pg).
Proof.
  induction ids as [|eid ids IH]; intros pg os.
  - destruct os; repeat split.
  - destruct os as [|o os]; [repeat split|].
    cbn [Search.emails_loop resume]. cbn zeta.
    match goal with |- context [resume (Search.emails_loop ids ?p) os] =>
      destruct (IH p os) as (H1 & H2 & H3 & H4) end.
    cbn zeta in *. rewrite H1, H2, H3, H4. repeat split.
Qed.

(** X15. Once the metadata is there the title is the subject, or else the
    topic, or else "Thread <id>", the topic and the summary are shown as
    labelled blocks only when they are not empty, and the unused second detail
    stays blank; loading the emails does not change any of them. *)
Theorem thread_header (threadId : val) (pg : Search.page) (o : outcome)
    (threadResp topic : val) (ids : list val) (os : list outcome) :
  Search.has_view Search.THREAD pg = true ->
  truthy threadId = true ->
  fetchJSON o = Ok threadResp ->
  get threadResp "topic" = Ok topic ->
  Search.iterate (field threadResp "email_ids") = Ok ids ->
  let t := Search.thread (state_of (resume (Search.showThread threadId pg) (o :: os))) in
  let subject := field threadResp "subject" in
  Search.thread_title t
  = (if truthy subject then to_string subject
     else if truthy topic then to_string topic
     else "Thread " +:+ to_string threadId)
  /\ Search.thread_topic t
     = (if truthy topic then "Topic:
" +:+ to_string topic else "")
  /\ Search.thread_detail1 t
     = (if truthy (field threadResp "detail1") then "Summary:
" +:+ to_string (field threadResp "detail1") else "")
  /\ Search.thread_detail2 t = "".
Proof.
  intros Hview Hid Hfetch Htopic Hids t subject. subst t subject.
  unfold Search.showThread. rewrite Hview, Hid. cbn [negb resume]. rewrite Hfetch.
  unfold Search.thread_settled. rewrite Htopic, Hids.
  match goal with |- context [resume (Search.emails_loop ids ?p) os] =>
    destruct (emails_loop_keeps_header ids p os) as (H1 & H2 & H3 & H4) end.
  cbn zeta in *. rewrite H1, H2, H3, H4.
  cbn [Search.thread Search.with_thread Search.thread_title Search.thread_topic
       Search.thread_detail1 Search.thread_detail2 Search.loading_thread].
  unfold or_else, Search.block_text.
  destruct (truthy (field threadResp "subject")), (truthy topic); repeat split.
Qed.

Lemma thread_header_witness :
  Search.thread_title
    (Search.thread
       (state_of (resume (Search.showThread (VStr "T1") (search_page 8))
                    [json_ok (VObj [("topic", VStr "Budget"); ("email_ids", VArr [VStr "e1"])]);
                     unreachable])))
  = "Budget".
Proof.
  exact (proj1 (thread_header (VStr "T1") (search_page 8)
                  (json_ok (VObj [("topic", VStr "Budget"); ("email_ids", VArr [VStr "e1"])]))
                  (VObj [("topic", VStr "Budget"); ("email_ids", VArr [VStr "e1"])])
                  (VStr "Budget") [VStr "e1"] [unreachable]
                  eq_refl eq_refl eq_refl eq_refl eq_refl)).
Defined.

(** X16. A thread whose [email_ids] is there but cannot be iterated ([null], a
    number, a boolean, an object) makes [showThread] fail outside any
    [try]: the promise rejects after the title is rendered, with no email
    listed and none requested. *)
Theorem email_ids_not_iterable (threadId : val) (pg : Search.page) (o : outcome)
    (threadResp topic : val) (e : error) (os : list outcome) :
  Search.has_view Search.THREAD pg = true ->
  truthy threadId = true ->
  fetchJSON o = Ok threadResp ->
  get threadResp "topic" = Ok topic ->
  Search.iterate (field threadResp "email_ids") = Throw e ->
  exists pg',
    resume (Search.showThread threadId pg) (o :: os) = Rejected pg' e
    /\ e = TypeError "email_ids is not iterable"
    /\ Search.emails_list (Search.thread pg') = []
    /\ requests (Search.showThread threadId pg) (o :: os)
       = [Search.thread_request threadId].
Proof.
  intros Hview Hid Hfetch Htopic Hiter. unfold Search.showThread.
  rewrite Hview, Hid. cbn [negb resume requests]. rewrite Hfetch.
  unfold Search.thread_settled. rewrite Htopic, Hiter.
  eexists. split; [now destruct os|]. split.
  - unfold Search.iterate in Hiter.
    destruct (field threadResp "email_ids"); congruence.
  - split; [reflexivity | now destruct os].
Qed.

Lemma email_ids_not_iterable_witness :
  exists pg',
    resume (Search.showThread (VStr "T1") (search_page 8))
      [json_ok (VObj [("email_ids", VNull)])]
    = Rejected pg' (TypeError "email_ids is not iterable").
Proof.
  destruct (email_ids_not_iterable (VStr "T1") (search_page 8)
              (json_ok (VObj [("email_ids", VNull)]))
              (VObj [("email_ids", VNull)]) VUndef
              (TypeError "email_ids is not iterable") []
              eq_refl eq_refl eq_refl eq_refl eq_refl) as (pg' & H & _).
  exists pg'. exact H.
Defined.

(** X17. An email whose request succeeds but whose response has no [data]
    object is shown as failed, like one whose request failed: the exception
    stays inside that email's [try]. *)
Theorem email_without_data_fails (toLocale : val -> option string) (eid : val)
    (o : outcome) (resp : val) :
  fetchJSON o = Ok resp ->
  is_present (field resp "data") = false ->
  Search.settled_item toLocale eid o
  = Search.EmailItem "Loading date…" (Search.safe eid) Search.FailedContent.
Proof.
  intros Hfetch Hdata. unfold Search.settled_item. rewrite Hfetch.
  cbn [mbind result_bind]. unfold Search.email_rendered.
  destruct resp as [| | | | | |fs]; try reflexivity.
  cbn [get mbind result_bind field] in *.
  destruct (assoc "data" fs); try discriminate; reflexivity.
Qed.

Lemma email_without_data_fails_witness :
  Search.settled_item (fun _ => None) (VStr "e1") (json_ok (VObj [("subject", VStr "hi")]))
  = Search.EmailItem "Loading date…" "e1" Search.FailedContent.
Proof.
  exact (email_without_data_fails (fun _ => None) (VStr "e1")
           (json_ok (VObj [("subject", VStr "hi")]))
           (VObj [("subject", VStr "hi")]) eq_refl eq_refl).
Defined.

Lemma attachment_names_inert l : forall names,
  Search.attachment_names l = Ok names -> Forall inert names.
Proof.
  induction l as [|a l IH]; intros names H; cbn [Search.attachment_names] in H.
  - injection H as <-. constructor.
  - destruct (get a "filename") as [f|]; [|discriminate]. cbn [mbind result_bind] in H.
    destruct (Search.attachment_names l) as [ns|]; [|discriminate].
    cbn [mbind result_bind] in H. injection H as <-.
    constructor; [apply escape_inert | now apply IH].
Qed.

Lemma filter_keys_sublist {A B} (P : A * B -> bool) (l : list (A * B)) :
  sublist (map fst (List.filter P l)) (map fst l).
Proof.
  induction l as [|x l IH]; [constructor|].
  cbn [List.filter map]. destruct (P x); cbn [map]; now constructor.
Qed.

(** X18. Nothing of an email reaches the page as markup, and its headers keep
    their order: whatever the email's request gives, the date line, the id
    pill, every header value, the body and every attachment name of the item
    hold no [<] and no [>], and the headers shown are some of Subject, From,
    To and Cc, in that order, each at most once. *)
Theorem email_item_is_inert (toLocale : val -> option string) (eid : val)
    (o : outcome) :
  let it := Search.settled_item toLocale eid o in
  inert (Search.header_line it) /\ inert (Search.id_pill it)
  /\ match Search.content it with
     | Search.EmailContent headers body names =>
         sublist (map fst headers) ["Subject"; "From"; "To"; "Cc"]
         /\ Forall (fun kv => inert (snd kv)) headers
         /\ inert body /\ Forall inert names
     | Search.FailedContent => True
     | Search.LoadingContent => False
     end.
Proof.
  cbn zeta. unfold Search.settled_item.
  assert (Hloading : inert "Loading date…").
  { split; cbn; intros H; repeat (destruct H as [H|H]; [discriminate|]); exact H. }
  destruct (fetchJSON o) as [resp|e]; cbn [mbind result_bind];
    [|cbn; repeat split; first [apply escape_inert | apply Hloading]].
  unfold Search.email_rendered.
  destruct (get resp "data") as [data|e]; cbn [mbind result_bind];
    [|cbn; repeat split; first [apply escape_inert | apply Hloading]].
  destruct (get data "from") as [from|e]; cbn [mbind result_bind];
    [|cbn; repeat split; first [apply escape_inert | apply Hloading]].
  destruct (Search.attachment_names _) as [names|e] eqn:Hn; cbn [mbind result_bind];
    [|cbn; repeat split; first [apply escape_inert | apply Hloading]].
  cbn [Search.header_line Search.id_pill Search.content].
  split; [apply escape_inert|]. split; [apply escape_inert|].
  split; [|split; [|split; [apply escape_inert | now apply (attachment_names_inert _ _ Hn)]]].
  - rewrite map_map. cbn [fst].
    exact (filter_keys_sublist (fun kv => truthy (snd kv))
             [("Subject", field data "subject");
              ("From", Search.pick [from; field data "sender"]);
              ("To", VStr (Search.formatRecipients
                             (Search.pick [field data "to"; field data "receiver"])));
              ("Cc", VStr (Search.formatRecipients
                             (Search.pick [field data "cc"; field data "ccs"])))]).
  - apply List.Forall_forall. intros kv [x [<- _]]%in_map_iff. apply escape_inert.
Qed.

(** ** Synonyms and titles *)

(** X19. [pick] returns the first of its arguments that is not [undefined],
    [null] or the empty string, and [undefined] when there is none. *)
Theorem pick_first_value (vals : list val) :
  (Forall (fun v => no_value v = true) vals /\ Search.pick vals = VUndef)
  \/ (exists pre v post,
        vals = pre ++ v :: post
        /\ Forall (fun v => no_value v = true) pre
        /\ no_value v = false
        /\ Search.pick vals = v).
Proof.
  induction vals as [|v vals IH]; [left; split; [constructor | reflexivity]|].
  destruct (no_value v) eqn:Hv.
  - assert (Hp : Search.pick (v :: vals) = Search.pick vals).
    { destruct v as [| | | |s| |]; try discriminate; try reflexivity.
      cbn in Hv |- *. now rewrite Hv. }
    rewrite Hp. destruct IH as [[Hall Hu] | (pre & w & post & -> & Hpre & Hw & Hpick)].
    + left. split; [now constructor | exact Hu].
    + right. exists (v :: pre), w, post. repeat split; [now constructor | exact Hw | exact Hpick].
  - right. exists [], v, vals. repeat split; [constructor | exact Hv |].
    destruct v as [| | | |s| |]; try discriminate; try reflexivity.
    cbn in Hv |- *. now rewrite Hv.
Qed.

Lemma pop_singleton w : pop [w] = VStr w.
Proof. reflexivity. Qed.

Lemma pop_cons w ws : ws <> [] -> pop (w :: ws) = pop ws.
Proof.
  intros Hne. unfold pop. cbn [rev].
  destruct (rev ws) as [|x l] eqn:Hrev; [|reflexivity].
  apply (f_equal (@rev string)) in Hrev. rewrite rev_involutive in Hrev. contradiction.
Qed.

Lemma split_path_nonempty p : split_path p <> [].
Proof.
  destruct p as [|c p]; cbn; [discriminate|].
  destruct (is_path_sep c); [discriminate|].
  destruct (split_path p); discriminate.
Qed.

(** The last field of a split path: the path ends with it, it holds no
    separator, and what comes before it is empty or ends with one. *)
Lemma last_segment p :
  exists pre t,
    pop (split_path p) = VStr t
    /\ p = pre +:+ t
    /\ is_segment t
    /\ (split_path p = [t] -> pre = "")
    /\ (pre = "" \/ exists pre' c, pre = pre' +:+ String c "" /\ is_path_sep c = true).
Proof.
  induction p as [|c p (pre & t & Hpop & Hp & Hseg & Hone & Hpre)].
  - exists "", "". repeat split; [intros c []| now left].
  - cbn [split_path]. destruct (is_path_sep c) eqn:Hc.
    + exists (String c pre), t. rewrite pop_cons by apply split_path_nonempty.
      split; [exact Hpop|]. split; [now rewrite append_cons, <- Hp|].
      split; [exact Hseg|]. split.
      * intros H. injection H as _ H. now destruct (split_path_nonempty p).
      * right. destruct Hpre as [-> | (pre' & d & -> & Hd)].
        -- now exists "", c.
        -- exists (String c pre'), d. now rewrite append_cons.
    + destruct (split_path p) as [|w ws] eqn:Hs; [now destruct (split_path_nonempty p)|].
      destruct ws as [|w' ws'].
      * rewrite pop_singleton in Hpop |- *. injection Hpop as ->.
        rewrite (Hone eq_refl) in *. change ("" +:+ t) with t in Hp. subst p.
        exists "", (String c t). repeat split; [|now left].
        intros d [<- | Hd]; [exact Hc | now apply Hseg].
      * exists (String c pre), t. rewrite pop_cons in Hpop |- * by discriminate.
        split; [exact Hpop|]. split; [now rewrite append_cons, <- Hp|].
        split; [exact Hseg|]. split; [discriminate|].
        destruct Hpre as [-> | (pre' & d & -> & Hd)].
        -- change ("" +:+ t) with t in Hp. subst p.
           exfalso. clear Hone.
           assert (Hsingle : forall u, is_segment u -> split_path u = [u]).
           { induction u as [|a u IHu]; [reflexivity|]. intros Hu.
             cbn [split_path]. rewrite (Hu a) by now left.
             rewrite IHu; [reflexivity|]. intros b Hb. apply Hu. now right. }
           rewrite (Hsingle t Hseg) in Hs. discriminate.
        -- right. exists (String c pre'), d. now rewrite append_cons.
Qed.

(** X20. A document hit without [doc_name] is titled with the last segment of
    its [doc_path], in the results list and among the chat's sources: the path
    ends with the title, the title holds no slash or backslash, and what
    precedes it is empty or ends with one. *)
Theorem doc_title_is_last_segment (r : val) (p : string) :
  truthy (field r "doc_name") = false ->
  field r "doc_path" = VStr p ->
  p <> "" ->
  exists pre t,
    Search.doc_title r = Ok (VStr t)
    /\ Chat.doc_name r = Ok (VStr t)
    /\ p = pre +:+ t
    /\ is_segment t
    /\ (pre = "" \/ exists pre' c, pre = pre' +:+ String c "" /\ is_path_sep c = true).
Proof.
  intros Hname Hpath Hne.
  destruct (last_segment p) as (pre & t & Hpop & Hp & Hseg & _ & Hpre).
  exists pre, t. unfold Search.doc_title, Chat.doc_name.
  rewrite Hname, Hpath, Hpop. cbn [truthy].
  destruct (String.eqb_spec p ""); [contradiction|]. cbn [negb]. auto.
Qed.

Lemma doc_title_is_last_segment_witness :
  exists pre t,
    Search.doc_title pdf_hit = Ok (VStr t)
    /\ Chat.doc_name pdf_hit = Ok (VStr t)
    /\ "/docs/a.pdf" = pre +:+ t
    /\ is_segment t
    /\ (pre = "" \/ exists pre' c, pre = pre' +:+ String c "" /\ is_path_sep c = true).
Proof.
  exact (doc_title_is_last_segment pdf_hit "/docs/a.pdf" eq_refl eq_refl
           ltac:(discriminate)).
Defined.

(** ** Chat: the transcript and the requests of one submission *)

Lemma source_pill_keeps_transcript s pg :
  Chat.messages (fst (Chat.source_pill s pg)) = Chat.messages pg
  /\ Chat.input (fst (Chat.source_pill s pg)) = Chat.input pg
  /\ Chat.origin (fst (Chat.source_pill s pg)) = Chat.origin pg.
Proof.
  unfold Chat.source_pill. destruct (get s "thread_id"); [|repeat split].
  destruct (Chat.classify s); [|repeat split]. cbn zeta.
  destruct (Chat.doc_name s); repeat split.
Qed.

Lemma source_pills_keep_transcript sources : forall pg,
  Chat.messages (fst (Chat.source_pills sources pg)) = Chat.messages pg
  /\ Chat.input (fst (Chat.source_pills sources pg)) = Chat.input pg.
Proof.
  induction sources as [|s sources IH]; intros pg; [split; reflexivity|].
  cbn [Chat.source_pills].
  destruct (source_pill_keeps_transcript s pg) as (Hm & Hi & _).
  destruct (Chat.source_pill s pg) as [pg1 [p|e]]; cbn [fst] in *; [|now split].
  destruct (IH pg1) as [Hm' Hi'].
  destruct (Chat.source_pills sources pg1) as [pg2 [ps|e]]; cbn [fst] in *;
    split; congruence.
Qed.

Lemma resume_cons {S} (s : S) req k o os :
  resume (Await s req k) (o :: os) = resume (k o) os.
Proof. reflexivity. Qed.

Lemma resume_done_state {S} (p : proc S) os s :
  p = Done s -> state_of (resume p os) = s.
Proof. intros ->. now destruct os. Qed.

(** Updating the placeholder keeps everything before it. *)
Lemma update_placeholder f l meta c (pg : Chat.page) :
  Chat.messages pg = l ++ [Chat.AssistantMsg meta c] ->
  Chat.messages (Chat.update_message f (length l) pg) = l ++ [f (Chat.AssistantMsg meta c)]
  /\ Chat.input (Chat.update_message f (length l) pg) = Chat.input pg.
Proof.
  intros Hm. unfold Chat.update_message. cbn [Chat.messages Chat.with_messages Chat.input].
  rewrite Hm. split; [apply alter_last | reflexivity].
Qed.

(** X21. Whatever the two calls answer, a submission that is not blank adds
    exactly two messages to the transcript, the user's text (escaped) and one
    assistant message, keeps every earlier message, and leaves the input
    field empty. *)
Theorem submit_appends_two_messages (pg : Chat.page) (os : list outcome) :
  trim (Chat.input pg) <> "" ->
  exists meta c,
    Chat.messages (state_of (resume (Chat.submit pg) os))
    = Chat.messages pg
        ++ [Chat.UserMsg (Chat.safe (VStr (trim (Chat.input pg))));
            Chat.AssistantMsg meta c]
    /\ Chat.input (state_of (resume (Chat.submit pg) os)) = "".
Proof.
  intros Hne. unfold Chat.submit.
  destruct (String.eqb_spec (trim (Chat.input pg)) ""); [contradiction|].
  set (val := trim (Chat.input pg)).
  set (l := Chat.messages pg ++ [Chat.UserMsg (Chat.safe (VStr val))]).
  cbn [Chat.addAssistantMessage].
  set (pg0 := Chat.with_messages _ _).
  assert (H0 : Chat.messages pg0 = l ++ [Chat.AssistantMsg "Vetus Assistant" Chat.Typing])
    by reflexivity.
  assert (Hel : length (Chat.messages (Chat.addUserMessage val (Chat.with_input "" pg)))
                = length l) by reflexivity.
  rewrite Hel.
  destruct (update_placeholder (Chat.set_content Chat.Typing) l _ _ pg0 H0) as [H1 I1].
  set (pg1 := Chat.update_message _ _ pg0) in *. cbn [Chat.set_content] in H1.
  assert (Hshape : forall p, (exists m c, Chat.messages p = l ++ [Chat.AssistantMsg m c])
                             /\ Chat.input p = "" ->
            exists meta c, Chat.messages p
                           = Chat.messages pg
                               ++ [Chat.UserMsg (Chat.safe (VStr val));
                                   Chat.AssistantMsg meta c]
                           /\ Chat.input p = "").
  { intros p [(m & c & Hp) Hi]. exists m, c. split; [|exact Hi].
    rewrite Hp. unfold l. now rewrite <- app_assoc. }
  assert (I0 : Chat.input pg0 = "") by reflexivity.
  destruct os as [|o1 os];
    [cbn [resume state_of]; apply Hshape; split; [eauto | now rewrite I1]|].
  rewrite resume_cons. unfold Chat.rewrite_settled.
  destruct (get (Chat.rewrite_response val (fetchJSON o1)) "answer") as [answer|e].
  - destruct (update_placeholder
                (Chat.set_meta (Chat.query_meta (Chat.resolved_query answer val)))
                l _ _ pg1 H1) as [H2 I2].
    set (pg2 := Chat.update_message _ _ pg1) in *. cbn [Chat.set_meta] in H2.
    destruct os as [|o2 os];
      [cbn [resume state_of]; apply Hshape; split; [eauto | now rewrite I2, I1]|].
    rewrite resume_cons.
    rewrite (resume_done_state _ os (Chat.answer_settled (length l) (fetchJSON o2) pg2))
      by reflexivity.
    apply Hshape. unfold Chat.answer_settled, Chat.updateAssistantMessage.
    destruct (fetchJSON o2) as [resp|e].
    + destruct (get resp "used_query").
      * destruct (source_pills_keep_transcript
                    (array_or_empty (field resp "sources")) pg2) as [Hm Hi].
        destruct (Chat.source_pills _ pg2) as [pg3 [pills|e]]; cbn [fst] in *;
          cbv beta iota zeta.
        -- rewrite <- Hm in H2. destruct (update_placeholder
              (Chat.set_content (Chat.Html
                 (Chat.answer_html (trim (to_string (or_else (field resp "answer") (VStr "")))))
                 pills)) l _ _ pg3 H2) as [H3 I3].
           split; [eauto | now rewrite I3, Hi, I2, I1].
        -- rewrite <- Hm in H2. destruct (update_placeholder
              (Chat.set_content (Chat.Html (Chat.apology e) [])) l _ _ pg3 H2) as [H3 I3].
           split; [eauto | now rewrite I3, Hi, I2, I1].
      * destruct (update_placeholder
              (Chat.set_content (Chat.Html (Chat.apology e) [])) l _ _ pg2 H2) as [H3 I3].
        split; [eauto | now rewrite I3, I2, I1].
    + destruct (update_placeholder
              (Chat.set_content (Chat.Html (Chat.apology e) [])) l _ _ pg2 H2) as [H3 I3].
      split; [eauto | now rewrite I3, I2, I1].
  - rewrite (resume_done_state _ os
               (Chat.updateAssistantMessage (length l) (Chat.apology e) pg1))
      by reflexivity.
    apply Hshape. unfold Chat.updateAssistantMessage.
    destruct (update_placeholder
              (Chat.set_content (Chat.Html (Chat.apology e) [])) l _ _ pg1 H1) as [H3 I3].
    split; [eauto | now rewrite I3, I1].
Qed.

Lemma submit_appends_two_messages_witness :
  exists meta c,
    Chat.messages (state_of (resume (Chat.submit (chat_page "hello" 8))
                               [unreachable; Received server_error]))
    = Chat.messages (chat_page "hello" 8)
        ++ [Chat.UserMsg "hello"; Chat.AssistantMsg meta c]
    /\ Chat.input (state_of (resume (Chat.submit (chat_page "hello" 8))
                               [unreachable; Received server_error])) = "".
Proof.
  exact (submit_appends_two_messages (chat_page "hello" 8)
           [unreachable; Received server_error] ltac:(discriminate)).
Defined.

(** X22. One submission makes at most two requests, in this order: the rewrite
    call to [/ask], then the answer call to [/ask-with-rag], whose
    [user_input] is the submitted text; nothing else is requested, however
    many responses are there. *)
Theorem submit_makes_at_most_two_requests (pg : Chat.page) (os : list outcome) :
  trim (Chat.input pg) <> "" ->
  requests (Chat.submit pg) os = [Chat.rewrite_request (trim (Chat.input pg))]
  \/ exists used,
       requests (Chat.submit pg) os
       = [Chat.rewrite_request (trim (Chat.input pg));
          Chat.rag_request (trim (Chat.input pg)) used].
Proof.
  intros Hne. unfold Chat.submit.
  destruct (String.eqb_spec (trim (Chat.input pg)) ""); [contradiction|].
  cbn [Chat.addAssistantMessage requests].
  destruct os as [|o1 os]; [now left|].
  unfold Chat.rewrite_settled.
  destruct (get (Chat.rewrite_response (trim (Chat.input pg)) (fetchJSON o1)) "answer")
    as [answer|e].
  - right. eexists. cbn [requests]. do 2 f_equal.
    destruct os as [|o2 os]; [reflexivity|]. now destruct os.
  - left. now destruct os.
Qed.

Lemma submit_makes_at_most_two_requests_witness :
  requests (Chat.submit (chat_page "hello" 8)) [json_ok VNull; unreachable]
  = [Chat.rewrite_request (trim (Chat.input (chat_page "hello" 8)))]
  \/ exists used,
       requests (Chat.submit (chat_page "hello" 8)) [json_ok VNull; unreachable]
       = [Chat.rewrite_request (trim (Chat.input (chat_page "hello" 8)));
          Chat.rag_request (trim (Chat.input (chat_page "hello" 8))) used].
Proof.
  exact (submit_makes_at_most_two_requests (chat_page "hello" 8)
           [json_ok VNull; unreachable] ltac:(discriminate)).
Defined.

(** X23. When the answer call fails, the placeholder ends as an apology
    carrying the error's message, escaped, under the query that was used;
    nothing is stored and no pill is shown. *)
Theorem answer_failure_is_apologised (pg : Chat.page) (o1 o2 : outcome)
    (answer : val) (e : error) :
  trim (Chat.input pg) <> "" ->
  get (Chat.rewrite_response (trim (Chat.input pg)) (fetchJSON o1)) "answer" = Ok answer ->
  fetchJSON o2 = Throw e ->
  exists pg',
    resume (Chat.submit pg) [o1; o2] = Done pg'
    /\ Chat.messages pg'
       = Chat.messages pg
           ++ [Chat.UserMsg (Chat.safe (VStr (trim (Chat.input pg))));
               Chat.AssistantMsg
                 (Chat.query_meta (Chat.resolved_query answer (trim (Chat.input pg))))
                 (Chat.Html ("<p>Sorry, I hit an error: "
                               +:+ Chat.escape (message_or_string e) +:+ "</p>") [])]
    /\ Chat.localStorage pg' = Chat.localStorage pg.
Proof.
  intros Hne Hans Hfail. unfold Chat.submit.
  destruct (String.eqb_spec (trim (Chat.input pg)) ""); [contradiction|].
  cbn [Chat.addAssistantMessage resume]. unfold Chat.rewrite_settled.
  rewrite Hans. cbn [resume]. rewrite Hfail. eexists. split; [reflexivity|].
  unfold Chat.answer_settled, Chat.updateAssistantMessage, Chat.update_message,
    Chat.addUserMessage.
  cbn [Chat.messages Chat.with_messages Chat.with_input Chat.localStorage].
  rewrite !alter_last. cbn [Chat.set_content Chat.set_meta].
  split; [now rewrite <- app_assoc | reflexivity].
Qed.

Lemma answer_failure_is_apologised_witness :
  exists pg',
    resume (Chat.submit (chat_page "hello" 8)) [unreachable; Received server_error]
    = Done pg'
    /\ Chat.messages pg'
       = Chat.messages (chat_page "hello" 8)
           ++ [Chat.UserMsg "hello";
               Chat.AssistantMsg (Chat.query_meta "hello")
                 (Chat.Html "<p>Sorry, I hit an error: Request failed: 500</p>" [])]
    /\ Chat.localStorage pg' = Chat.localStorage (chat_page "hello" 8).
Proof.
  exact (answer_failure_is_apologised (chat_page "hello" 8) unreachable
           (Received server_error) (VStr "hello") (Error "Request failed: 500")
           ltac:(discriminate) eq_refl eq_refl).
Defined.

(** ** Chat: quotes, paragraphs, sources, context mode *)

Lemma split_last_app c m z :
  Chat.split_last c (m +:+ String z "") = (String c m, z).
Proof.
  revert c. induction m as [|d m IH]; intros c; [reflexivity|].
  change (String d m +:+ String z "") with (String d (m +:+ String z "")).
  cbn [Chat.split_last]. now rewrite IH.
Qed.

(** X24. A text wrapped in quote characters (single, double or backtick, not
    necessarily the same at both ends) with no line terminator (U+000A,
    U+000D, U+2028, U+2029) between them loses exactly that one layer: what is
    between the two characters comes back as it is, inner quotes included. *)
Theorem stripWrapperQuotes_unwraps (a z : ascii) (m : string) :
  Chat.is_quote a = true -> Chat.is_quote z = true ->
  Chat.has_line_break m = false ->
  Chat.stripWrapperQuotes (String a (m +:+ String z "")) = m.
Proof.
  intros Ha Hz Hm. unfold Chat.stripWrapperQuotes, Chat.match_wrapped.
  destruct m as [|d m].
  - change ("" +:+ String z "") with (String z ""). cbn [Chat.split_last].
    now rewrite Ha, Hz.
  - change (String d m +:+ String z "") with (String d (m +:+ String z "")).
    cbv beta iota. rewrite split_last_app, Ha, Hz, Hm. reflexivity.
Qed.

Lemma stripWrapperQuotes_unwraps_witness :
  Chat.stripWrapperQuotes (String "`" ("'refund' policy" +:+ String "'" ""))
  = "'refund' policy".
Proof.
  exact (stripWrapperQuotes_unwraps "`" "'" "'refund' policy" eq_refl eq_refl eq_refl).
Defined.

Lemma split_last_spec c s :
  String c s = fst (Chat.split_last c s) +:+ String (snd (Chat.split_last c s)) "".
Proof.
  revert c. induction s as [|d s IH]; intros c; [reflexivity|].
  cbn [Chat.split_last]. specialize (IH d).
  destruct (Chat.split_last d s) as [init z]. cbn [fst snd] in *.
  change (String c init +:+ String z "") with (String c (init +:+ String z "")).
  now rewrite <- IH.
Qed.

(** X25. [stripWrapperQuotes] changes nothing else: a text comes back as it
    is unless it has at least two characters, starts and ends with a quote
    character and has no line terminator (U+000A, U+000D, U+2028, U+2029) in
    between. *)
Theorem stripWrapperQuotes_leaves_others (s : string) :
  (forall a z m, s = String a (m +:+ String z "") ->
                 Chat.is_quote a = true -> Chat.is_quote z = true ->
                 Chat.has_line_break m = true) ->
  Chat.stripWrapperQuotes s = s.
Proof.
  intros H. unfold Chat.stripWrapperQuotes, Chat.match_wrapped.
  destruct s as [|a [|d rest]]; try reflexivity.
  pose proof (split_last_spec d rest) as Hs.
  destruct (Chat.split_last d rest) as [middle z]. cbn [fst snd] in Hs.
  destruct (Chat.is_quote a) eqn:Ha; [|reflexivity].
  destruct (Chat.is_quote z) eqn:Hz; [|reflexivity].
  rewrite (H a z middle); [reflexivity | now rewrite Hs | exact Ha | exact Hz].
Qed.

Lemma stripWrapperQuotes_leaves_others_witness :
  Chat.stripWrapperQuotes "refund 'policy'" = "refund 'policy'"
  /\ Chat.stripWrapperQuotes ("'a" +:+ line_separator +:+ "b'")
     = "'a" +:+ line_separator +:+ "b'".
Proof.
  split.
  - apply stripWrapperQuotes_leaves_others.
    intros a z m Heq Ha _. injection Heq as <- _. discriminate.
  - apply stripWrapperQuotes_leaves_others.
    intros a z m Heq _ _.
    apply (f_equal (fun s => match s with
                             | String c r => fst (Chat.split_last c r)
                             | EmptyString => ""
                             end)) in Heq.
    rewrite split_last_app in Heq. cbn in Heq. injection Heq as _ <-. reflexivity.
Defined.

Lemma chars_cons c s : chars (String c s) = c :: chars s.
Proof. reflexivity. Qed.

Lemma join_two sep (w w' : string) ws :
  join sep (w :: w' :: ws) = w +:+ (sep +:+ join sep (w' :: ws)).
Proof. reflexivity. Qed.

Lemma escape_app s t : Chat.escape (s +:+ t) = Chat.escape s +:+ Chat.escape t.
Proof. unfold Chat.escape. now rewrite !replace_all_app. Qed.

Lemma escape_line_feeds n : Chat.escape (line_feeds n) = line_feeds n.
Proof.
  induction n as [|n IH]; [reflexivity|].
  cbn [line_feeds]. rewrite chat_escape, escape_cons, <- chat_escape, IH. reflexivity.
Qed.

Lemma escape_is_line l : is_line l -> is_line (Chat.escape l).
Proof.
  intros [Hne Hlf]. split.
  - destruct l as [|c l]; [contradiction|]. rewrite chat_escape, escape_cons.
    unfold escaped. now destruct (Ascii.eqb c "&"), (Ascii.eqb c "<"), (Ascii.eqb c ">").
  - clear Hne. induction l as [|c l IH]; [intros []|].
    rewrite chars_cons in Hlf. rewrite chat_escape, escape_cons, chars_app, <- chat_escape.
    intros [Hin|Hin]%in_app_or.
    + unfold escaped in Hin.
      destruct (Ascii.eqb c "&"); [|destruct (Ascii.eqb c "<"); [|destruct (Ascii.eqb c ">")]];
        cbn in Hin; repeat (destruct Hin as [Hin|Hin]; [try discriminate|]); try exact Hin.
      apply Hlf. now left.
    + apply IH; [|exact Hin]. intros H. apply Hlf. now right.
Qed.

Lemma escape_join lines :
  Chat.escape (join (String "010" "") lines)
  = join (String "010" "") (map Chat.escape lines).
Proof.
  induction lines as [|l lines IH]; [reflexivity|].
  destruct lines as [|l' lines]; [reflexivity|].
  rewrite join_two, !escape_app, IH. reflexivity.
Qed.

Lemma escape_laid_out rest : forall first,
  Chat.escape (laid_out first rest)
  = laid_out (map Chat.escape first)
      (map (fun gp => (fst gp, map Chat.escape (snd gp))) rest).
Proof.
  induction rest as [|[extra p] rest IH]; intros first; cbn [laid_out map fst snd].
  - now rewrite escape_app, escape_join.
  - now rewrite !escape_app, escape_join, escape_line_feeds, IH.
Qed.

Lemma replace_all_removes c by_ s :
  ~ In c (chars by_) -> ~ In c (chars (replace_all c by_ s)).
Proof.
  intros Hby. induction s as [|d s IH]; [intros []|].
  cbn [replace_all]. rewrite chars_app. intros [Hin|Hin]%in_app_or; [|tauto].
  destruct (Ascii.eqb_spec d c) as [->|Hd]; [tauto|].
  destruct Hin as [->|[]]. contradiction.
Qed.

(** [break_paragraphs] over a line. *)
Lemma break_line l : forall r,
  ~ In "010"%char (chars l) ->
  Chat.break_paragraphs 0 (l +:+ r) = l +:+ Chat.break_paragraphs 0 r.
Proof.
  induction l as [|c l IH]; intros r Hlf; [reflexivity|].
  rewrite chars_cons in Hlf. rewrite !append_cons. cbn [Chat.break_paragraphs].
  destruct (Ascii.eqb_spec c "010") as [->|_]; [exfalso; apply Hlf; now left|].
  rewrite IH by (intros H; apply Hlf; now right). reflexivity.
Qed.

Lemma break_line_after pending l r :
  is_line l ->
  Chat.break_paragraphs pending (l +:+ r)
  = (match pending with
     | 1 => String "010" ""
     | _ => ""
     end) +:+ l +:+ Chat.break_paragraphs 0 r.
Proof.
  intros [Hne Hlf]. destruct l as [|c l]; [contradiction|].
  rewrite chars_cons in Hlf. rewrite !append_cons. cbn [Chat.break_paragraphs].
  destruct (Ascii.eqb_spec c "010") as [->|_]; [exfalso; apply Hlf; now left|].
  rewrite break_line by (intros H; apply Hlf; now right).
  reflexivity.
Qed.

(** [break_paragraphs] over the lines of a paragraph, whatever came before. *)
Lemma break_paragraph lines : forall pending r,
  lines <> [] -> Forall is_line lines ->
  Chat.break_paragraphs pending (join (String "010" "") lines +:+ r)
  = (match pending with
     | 1 => String "010" ""
     | _ => ""
     end) +:+ join (String "010" "") lines +:+ Chat.break_paragraphs 0 r.
Proof.
  induction lines as [|l lines IH]; intros pending r Hne Hall; [contradiction|].
  inversion Hall as [|? ? Hl Hls]; subst. destruct lines as [|l' lines].
  - cbn [join concat]. now apply break_line_after.
  - rewrite join_two, !append_assoc_string. rewrite break_line_after by exact Hl.
    rewrite append_cons, append_nil_l. cbn [Chat.break_paragraphs].
    change (Ascii.eqb "010" "010") with true. cbv iota.
    rewrite (IH 1 r) by (try discriminate; exact Hls).
    reflexivity.
Qed.

Lemma break_gap extra s :
  Chat.break_paragraphs 0 (line_feeds (2 + extra) +:+ s)
  = "</p><p>" +:+ Chat.break_paragraphs 2 s.
Proof.
  cbn [Nat.add line_feeds]. rewrite !append_cons. cbn [Chat.break_paragraphs].
  change (Ascii.eqb "010" "010") with true. cbv iota. f_equal.
  induction extra as [|extra IH]; [reflexivity|].
  cbn [line_feeds]. rewrite append_cons. cbn [Chat.break_paragraphs].
  change (Ascii.eqb "010" "010") with true. cbv iota. exact IH.
Qed.

Lemma break_laid_out rest : forall first,
  Forall is_line first ->
  Forall (fun gp => snd gp <> [] /\ Forall is_line (snd gp)) rest ->
  Chat.break_paragraphs 0 (laid_out first rest) = broken first rest
  /\ (first <> [] -> Chat.break_paragraphs 2 (laid_out first rest) = broken first rest).
Proof.
  induction rest as [|[extra p] rest IH]; intros first Hfirst Hrest;
    cbn [laid_out broken].
  - destruct first as [|l first]; [split; [reflexivity | contradiction]|].
    split; [|intros _]; now rewrite break_paragraph.
  - inversion Hrest as [|? ? [Hp Hlines] Hrest']; subst. cbn [snd] in *.
    destruct (IH p Hlines Hrest') as [_ IH2].
    assert (Hgap : Chat.break_paragraphs 0 (line_feeds (2 + extra) +:+ laid_out p rest)
                   = "</p><p>" +:+ broken p rest)
      by (now rewrite break_gap, IH2).
    destruct first as [|l first].
    + split; [|contradiction]. cbn [join concat]. rewrite !append_nil_l. exact Hgap.
    + split; [|intros _]; rewrite break_paragraph by (try discriminate; exact Hfirst);
        now rewrite Hgap.
Qed.

Lemma replace_line l :
  ~ In "010"%char (chars l) -> replace_all "010" "<br/>" l = l.
Proof.
  induction l as [|c l IH]; intros Hlf; [reflexivity|].
  rewrite chars_cons in Hlf. cbn [replace_all].
  destruct (Ascii.eqb_spec c "010") as [->|_]; [exfalso; apply Hlf; now left|].
  rewrite IH by (intros H; apply Hlf; now right). reflexivity.
Qed.

Lemma replace_join lines :
  Forall is_line lines ->
  replace_all "010" "<br/>" (join (String "010" "") lines) = join "<br/>" lines.
Proof.
  induction lines as [|l lines IH]; intros Hall; [reflexivity|].
  inversion Hall as [|? ? [_ Hl] Hls]; subst. destruct lines as [|l' lines].
  - cbn [join concat]. now apply replace_line.
  - rewrite !join_two, !replace_all_app, (replace_line l Hl), (IH Hls). reflexivity.
Qed.

Lemma replace_broken rest : forall first,
  Forall is_line first ->
  Forall (fun gp => Forall is_line (snd gp)) rest ->
  replace_all "010" "<br/>" (broken first rest)
  = join "</p><p>" (map (join "<br/>") (first :: map snd rest)).
Proof.
  induction rest as [|[extra p] rest IH]; intros first Hfirst Hrest;
    cbn [broken map snd].
  - rewrite replace_all_app, replace_join by exact Hfirst.
    cbn [join concat]. now rewrite append_empty_r.
  - inversion Hrest as [|? ? Hp Hrest']; subst. cbn [snd] in *.
    rewrite !replace_all_app, replace_join by exact Hfirst.
    rewrite (IH p Hp Hrest'). reflexivity.
Qed.

(** X26. The HTML of an answer laid out in paragraphs: each run of two or
    more line feeds has become a paragraph break [</p><p>], each single line
    feed a [<br/>], every line is escaped, the whole stands in one [<p>]
    element, and no line feed is left in it. *)
Theorem answer_html_paragraphs (first : list string) (rest : list (nat * list string)) :
  Forall is_line first ->
  Forall (fun gp => snd gp <> [] /\ Forall is_line (snd gp)) rest ->
  Chat.answer_html (laid_out first rest) = paragraphs_html first rest
  /\ ~ In "010"%char (chars (Chat.answer_html (laid_out first rest))).
Proof.
  intros Hfirst Hrest. split.
  - unfold Chat.answer_html, paragraphs_html. rewrite escape_laid_out.
    assert (Hf : Forall is_line (map Chat.escape first)).
    { apply List.Forall_map. eapply List.Forall_impl; [|exact Hfirst].
      intros l. apply escape_is_line. }
    assert (Hr : Forall (fun gp => snd gp <> [] /\ Forall is_line (snd gp))
                   (map (fun gp => (fst gp, map Chat.escape (snd gp))) rest)).
    { apply List.Forall_map. eapply List.Forall_impl; [|exact Hrest].
      intros [e p] [Hp Hl]. cbn [fst snd] in *. split.
      - now destruct p.
      - apply List.Forall_map. eapply List.Forall_impl; [|exact Hl].
        intros l. apply escape_is_line. }
    rewrite (proj1 (break_laid_out _ _ Hf Hr)).
    rewrite replace_broken; [|exact Hf|].
    + unfold paragraph_html. cbn [map]. rewrite !map_map. reflexivity.
    + eapply List.Forall_impl; [|exact Hr]. now intros gp [_ H].
  - unfold Chat.answer_html.
    rewrite !chars_app. intros [Hin|[Hin|Hin]%in_app_or]%in_app_or.
    + cbn in Hin. repeat (destruct Hin as [Hin|Hin]; [discriminate|]). exact Hin.
    + revert Hin. apply replace_all_removes.
      cbn. intros H. repeat (destruct H as [H|H]; [discriminate|]). exact H.
    + cbn in Hin. repeat (destruct Hin as [Hin|Hin]; [discriminate|]). exact Hin.
Qed.

Lemma answer_html_paragraphs_witness :
  Chat.answer_html "a & b
c



d" = "<p>a &amp; b<br/>c</p><p>d</p>".
Proof.
  refine (proj1 (answer_html_paragraphs ["a & b"; "c"] [(2, ["d"])] _ _)).
  - repeat constructor; try discriminate;
      cbn; intros H; repeat (destruct H as [H|H]; [discriminate|]); exact H.
  - repeat constructor; try discriminate;
      cbn; intros H; repeat (destruct H as [H|H]; [discriminate|]); exact H.
Defined.

(** X27. Sources that all carry a [thread_id] are rendered without touching
    the store or the id source: one thread pill per source, in order, each
    linking to the thread view of its thread. *)
Theorem thread_sources_leave_store (sources : list val) (pg : Chat.page) :
  Forall (fun s => truthy (field s "thread_id") = true) sources ->
  Chat.source_pills sources pg
  = (pg, Ok (map (Chat.thread_pill (Chat.origin pg)) sources))
  /\ Forall (fun s =>
               Chat.pill_href (Chat.thread_pill (Chat.origin pg) s)
               = Chat.origin pg +:+ "/search?mode=thread&id="
                   +:+ encodeURIComponent (to_string (field s "thread_id")))
       sources.
Proof.
  intros Hall. split; [|apply Forall_forall; reflexivity].
  induction sources as [|s sources IH]; [reflexivity|].
  inversion Hall as [|? ? Hs Hrest]; subst. cbn [Chat.source_pills map].
  assert (Hpill : Chat.source_pill s pg = (pg, Ok (Chat.thread_pill (Chat.origin pg) s))).
  { unfold Chat.source_pill, Chat.classify. rewrite Hs. cbn [negb andb].
    destruct s; try discriminate. reflexivity. }
  rewrite Hpill, (IH Hrest). reflexivity.
Qed.

Lemma thread_sources_leave_store_witness :
  Chat.source_pills [budget_hit; budget_hit] (chat_page "" 8)
  = (chat_page "" 8,
     Ok (map (Chat.thread_pill (Chat.origin (chat_page "" 8))) [budget_hit; budget_hit])).
Proof.
  refine (proj1 (thread_sources_leave_store [budget_hit; budget_hit] (chat_page "" 8) _)).
  repeat constructor.
Defined.

(** X28. [getSelectedContextMode] never returns the empty string: a select
    with a non-empty value decides, otherwise the checkbox says "full" or
    "summary", and without either control the mode is "summary". *)
Theorem getSelectedContextMode_total (sel : option string) (cb : option bool) :
  Chat.getSelectedContextMode sel cb <> ""
  /\ (forall v, sel = Some v -> v <> "" -> Chat.getSelectedContextMode sel cb = v)
  /\ (sel = None \/ sel = Some "" ->
      Chat.getSelectedContextMode sel cb
      = match cb with
        | Some true => "full"
        | _ => "summary"
        end).
Proof.
  split; [|split].
  - unfold Chat.getSelectedContextMode.
    destruct sel as [v|]; [destruct (String.eqb_spec v "")|];
      cbn [negb]; try assumption; destruct cb as [[]|]; discriminate.
  - intros v -> Hv. unfold Chat.getSelectedContextMode.
    now destruct (String.eqb_spec v "").
  - intros [-> | ->]; destruct cb as [[]|]; reflexivity.
Qed.

Lemma getSelectedContextMode_total_witness :
  Chat.getSelectedContextMode (Some "hybrid") (Some true) = "hybrid"
  /\ Chat.getSelectedContextMode (Some "") (Some true) = "full".
Proof.
  split.
  - exact (proj1 (proj2 (getSelectedContextMode_total (Some "hybrid") (Some true)))
             "hybrid" eq_refl ltac:(discriminate)).
  - exact (proj2 (proj2 (getSelectedContextMode_total (Some "") (Some true)))
             (or_intror eq_refl)).
Defined.

(** ** Links *)

Lemma unhex_percent c :
  ascii_of_nat (16 * unhex (hex_digit (nat_of_ascii c / 16))
                + unhex (hex_digit (nat_of_ascii c mod 16))) = c.
Proof.
  destruct c as [[] [] [] [] [] [] [] []]; reflexivity.
Qed.

Lemma unreserved_not_percent c : unreserved c = true -> Ascii.eqb c "%" = false.
Proof.
  destruct (Ascii.eqb_spec c "%") as [->|]; [discriminate | reflexivity].
Qed.

Lemma decode_encode s : decodeURIComponent (encodeURIComponent s) = s.
Proof.
  induction s as [|c s IH]; [reflexivity|].
  cbn [encodeURIComponent]. destruct (unreserved c) eqn:Hc.
  - rewrite append_cons. change ("" +:+ encodeURIComponent s) with (encodeURIComponent s).
    cbn [decodeURIComponent]. now rewrite (unreserved_not_percent c Hc), IH.
  - unfold percent. rewrite !append_cons.
    change ("" +:+ encodeURIComponent s) with (encodeURIComponent s).
    cbn [decodeURIComponent]. change (Ascii.eqb "%" "%") with true. cbv iota.
    now rewrite unhex_percent, IH.
Qed.

(** X29. The id in a link can be read back: percent-decoding the [id]
    parameter of a thread card's link, of a thread pill's link and of a
    document card's link gives the thread id, respectively the minted id, that
    the link was built from. *)
Theorem link_ids_decode (u : Search.url) (origin : string) (tid : val) (docId : string)
    (r title : val) :
  (exists e, Search.thread_href u tid
             = Search.origin u +:+ Search.pathname u +:+ "?mode=thread&id=" +:+ e
             /\ decodeURIComponent e = to_string tid)
  /\ (exists e, Chat.threadUrl origin tid = origin +:+ "/search?mode=thread&id=" +:+ e
                /\ decodeURIComponent e = to_string tid)
  /\ (exists e, Search.href (Search.doc_card r title docId) = "/doc?id=" +:+ e
                /\ decodeURIComponent e = docId).
Proof.
  repeat split; eexists; (split; [reflexivity | apply decode_encode]).
Qed.

(** ** Truncated snippets *)

Lemma implode_app l1 l2 : implode (l1 ++ l2) = implode l1 +:+ implode l2.
Proof.
  induction l1 as [|c l1 IH]; [reflexivity|].
  cbn [app implode]. now rewrite IH, append_assoc_string.
Qed.

Lemma well_formed_app l1 l2 :
  well_formed l1 -> well_formed l2 ->
  match l2 with
  | [] => True
  | c :: _ => boundary c = true
  end ->
  well_formed (l1 ++ l2).
Proof.
  intros [Hc1 Hb1] [Hc2 Hb2] Hhead. split; [now apply Forall_app|].
  destruct l1 as [|c l1]; [exact Hb2|]. cbn [app tail] in *.
  apply Forall_app. split; [exact Hb1|].
  destruct l2 as [|d l2]; [constructor|]. now constructor.
Qed.

(** The characters of a text followed by one that begins at a boundary. *)
Lemma code_points_app s t :
  t = "" \/ boundary t = true ->
  code_points (s +:+ t) = code_points s ++ code_points t.
Proof.
  intros Ht. rewrite <- (implode_code_points s), <- (implode_code_points t) at 1.
  rewrite <- implode_app. apply code_points_implode.
  apply well_formed_app; try apply well_formed_code_points.
  destruct t as [|d t]; [exact I|].
  destruct (code_points_head d t) as (r & ps & -> & _).
  destruct Ht as [Ht|Ht]; [discriminate | exact Ht].
Qed.

Lemma boundary_append c w : character c = true -> boundary (c +:+ w) = boundary c.
Proof. now destruct c. Qed.

(** Every word begins where one of the characters does. *)
Lemma words_boundary l :
  Forall (fun c => character c = true) l ->
  Forall (fun c => boundary c = true) l ->
  Forall (fun w => boundary w = true) (words l).
Proof.
  induction l as [|c l IH]; intros Hc Hb; [constructor|].
  inversion Hc as [|? ? Hcc Hcl]; inversion Hb as [|? ? Hbc Hbl]; subst.
  specialize (IH Hcl Hbl). cbn [words]. destruct (is_space c); [exact IH|].
  destruct l as [|d l]; [now repeat constructor|].
  destruct (is_space d); [now constructor|].
  destruct (words (d :: l)) as [|w ws]; [now repeat constructor|].
  inversion IH; subst. constructor; [|assumption].
  now rewrite boundary_append.
Qed.

Lemma is_word_character c :
  character c = true -> is_space c = false -> is_word c = true.
Proof.
  intros Hc Hs. unfold is_word.
  rewrite <- (append_empty_r c) at 2.
  rewrite code_points_character by auto. cbn [code_points forallb].
  rewrite Hs. destruct c; [discriminate | reflexivity].
Qed.

Lemma is_word_cons c w :
  character c = true -> is_space c = false ->
  is_word w = true -> boundary w = true ->
  is_word (c +:+ w) = true.
Proof.
  intros Hc Hs [_ Hw]%andb_prop Hb. unfold is_word.
  rewrite code_points_character by auto. cbn [forallb]. rewrite Hs, Hw.
  destruct c; [discriminate | reflexivity].
Qed.

(** The words of a text are words, and each one but the first begins at a
    boundary. *)
Lemma words_are_words l :
  well_formed l ->
  Forall (fun w => is_word w = true) (words l)
  /\ Forall (fun w => boundary w = true) (tail (words l)).
Proof.
  induction l as [|c l IH]; intros Hwf; [split; constructor|].
  destruct (IH (well_formed_tail _ _ Hwf)) as [IHw IHb].
  destruct Hwf as [Hc Hb]. cbn [tail] in Hb.
  inversion Hc as [|? ? Hcc Hcl]; subst.
  pose proof (words_boundary l Hcl Hb) as Hall.
  cbn [words]. destruct (is_space c) eqn:Hs; [now split|].
  destruct l as [|d l]; [split; [repeat constructor; now apply is_word_character | constructor]|].
  destruct (is_space d) eqn:Hd.
  - split; [constructor; [now apply is_word_character | exact IHw] | exact Hall].
  - destruct (words (d :: l)) as [|w ws];
      [split; [repeat constructor; now apply is_word_character | constructor]|].
    inversion IHw; inversion Hall; subst. split; [|assumption].
    constructor; [now apply is_word_cons | assumption].
Qed.

Lemma spec_words_are_words s :
  Forall (fun w => is_word w = true) (spec_words s)
  /\ Forall (fun w => boundary w = true) (tail (spec_words s)).
Proof. apply words_are_words, well_formed_code_points. Qed.

(** A run of characters that are not white space is one word, up to the
    next white space. *)
Lemma words_run l1 :
  l1 <> [] -> forallb (fun c => negb (is_space c)) l1 = true ->
  words l1 = [implode l1]
  /\ forall sp l2, is_space sp = true ->
       words (l1 ++ sp :: l2) = implode l1 :: words l2.
Proof.
  induction l1 as [|c l1 IH]; intros Hne Hall; [contradiction|].
  cbn [forallb] in Hall. apply andb_prop in Hall as [Hc Hall].
  apply negb_true_iff in Hc. destruct l1 as [|d l1].
  - split.
    + cbn [words implode]. now rewrite Hc, append_empty_r.
    + intros sp l2 Hsp. cbn [app words implode]. now rewrite Hc, Hsp, append_empty_r.
  - destruct (IH ltac:(discriminate) Hall) as [IH1 IH2].
    assert (Hd : is_space d = false).
    { cbn [forallb] in Hall. apply andb_prop in Hall as [Hd _]. now apply negb_true_iff. }
    split.
    + cbn [words] in IH1 |- *. rewrite Hc, Hd in *. now rewrite IH1.
    + intros sp l2 Hsp. specialize (IH2 sp l2 Hsp).
      cbn [app words] in IH2 |- *. rewrite Hc, Hd in *. now rewrite IH2.
Qed.

Lemma is_word_code_points w :
  is_word w = true ->
  code_points w <> [] /\ forallb (fun c => negb (is_space c)) (code_points w) = true.
Proof.
  intros [Hne Hall]%andb_prop. split; [|exact Hall].
  destruct w; [discriminate|]. destruct (code_points_head a w) as (r & ps & -> & _).
  discriminate.
Qed.

Lemma words_of_word w : is_word w = true -> spec_words w = [w].
Proof.
  intros [Hne Hall]%is_word_code_points. unfold spec_words.
  rewrite (proj1 (words_run _ Hne Hall)). now rewrite implode_code_points.
Qed.

(** A word followed by a space and a text that begins at a boundary is the
    first word of the whole. *)
Lemma words_word_then w s :
  is_word w = true -> s = "" \/ boundary s = true ->
  spec_words (w +:+ String " " s) = w :: spec_words s.
Proof.
  intros [Hne Hall]%is_word_code_points Hs. unfold spec_words.
  rewrite code_points_app by now right.
  change (String " " s) with (" " +:+ s). rewrite code_points_character by auto.
  rewrite (proj2 (words_run _ Hne Hall)) by reflexivity.
  now rewrite implode_code_points.
Qed.

Lemma is_word_app w v :
  is_word w = true -> is_word v = true -> boundary v = true ->
  is_word (w +:+ v) = true.
Proof.
  intros [Hw Hcw]%andb_prop [Hv Hcv]%andb_prop Hb. unfold is_word.
  rewrite code_points_app by now right. rewrite forallb_app, Hcw, Hcv.
  destruct w; [discriminate | reflexivity].
Qed.

Lemma join_cons w w' ws :
  join " " (w :: w' :: ws) = w +:+ (" " +:+ join " " (w' :: ws)).
Proof. reflexivity. Qed.

Lemma boundary_join w ws suffix :
  w <> "" -> boundary (join " " (w :: ws) +:+ suffix) = boundary w.
Proof.
  intros Hw. destruct w as [|a w]; [contradiction|]. now destruct ws.
Qed.

(** Joining words by single spaces and appending to the last one a suffix
    that is empty or a word gives a text with as many words, which are the
    same joined again. *)
Lemma words_of_joined ws : forall suffix,
  ws <> [] ->
  Forall (fun w => is_word w = true) ws ->
  Forall (fun w => boundary w = true) (tail ws) ->
  suffix = "" \/ (is_word suffix = true /\ boundary suffix = true) ->
  exists ws',
    spec_words (join " " ws +:+ suffix) = ws'
    /\ length ws' = length ws
    /\ join " " ws' = join " " ws +:+ suffix.
Proof.
  induction ws as [|w ws IH]; intros suffix Hne Hall Hbound Hsuf; [contradiction|].
  inversion Hall as [|? ? Hw Hws]; subst. destruct ws as [|w' ws].
  - cbn [join concat]. exists [w +:+ suffix]. split; [|split; reflexivity].
    apply words_of_word. destruct Hsuf as [-> | [Hs Hb]].
    + now rewrite append_empty_r.
    + now apply is_word_app.
  - cbn [tail] in Hbound. inversion Hbound as [|? ? Hb' Hbs]; subst.
    assert (Htail : Forall (fun w => boundary w = true) (tail (w' :: ws))).
    { cbn [tail]. destruct ws; [constructor|]. exact Hbs. }
    destruct (IH suffix ltac:(discriminate) Hws Htail Hsuf) as (ws' & Hsp & Hlen & Hjoin).
    exists (w :: ws'). rewrite join_cons, !append_assoc_string.
    change (" " +:+ ?x) with (String " " x).
    rewrite words_word_then; [|exact Hw|].
    + split; [now rewrite Hsp|]. split; [cbn [length]; now rewrite Hlen|].
      destruct ws' as [|v vs]; [discriminate|]. rewrite join_cons. now rewrite Hjoin.
    + right. rewrite boundary_join; [exact Hb'|].
      inversion Hws as [|? ? Hw' _]; subst. now destruct w'.
Qed.

(** What a cut text is made of. *)
Lemma cut_text_words (text : string) (n : nat) :
  1 <= n ->
  exists ws',
    spec_words (Search.cutToWords (VStr text) n) = ws'
    /\ length ws' = Nat.min n (length (spec_words text))
    /\ join " " ws' = Search.cutToWords (VStr text) n.
Proof.
  intros Hn. rewrite cutToWords_spec by now left. unfold spec_truncate.
  destruct (spec_words_are_words text) as [Hall Hbound].
  destruct (spec_words text) as [|w ws] eqn:Hws.
  - rewrite firstn_nil. exists []. cbn. repeat split. lia.
  - destruct (words_of_joined (firstn n (w :: ws))
                (if (n <? length (w :: ws))%nat then "…" else ""))
      as (ws' & H1 & H2 & H3).
    + destruct n; [lia | discriminate].
    + now apply Forall_take.
    + destruct n as [|n]; [lia|]. cbn [firstn tail] in *.
      destruct n; [constructor|]. now apply Forall_take.
    + destruct (n <? length (w :: ws))%nat; [right; split; reflexivity | now left].
    + exists ws'. split; [exact H1|]. split; [|exact H3].
      rewrite H2. apply length_firstn.
Qed.

(** X30. A snippet cut to [maxWords] words has at most [maxWords] words, as
    many as the text when that is fewer, the ellipsis being part of the last
    word and not a word of its own; and cutting is idempotent: the snippet
    comes back unchanged when it is cut to that many words again. *)
Theorem cutToWords_cut_is_stable (text : string) (maxWords : nat) :
  1 <= maxWords ->
  length (spec_words (Search.cutToWords (VStr text) maxWords))
  = Nat.min maxWords (length (spec_words text))
  /\ Search.cutToWords (VStr (Search.cutToWords (VStr text) maxWords)) maxWords
     = Search.cutToWords (VStr text) maxWords.
Proof.
  intros Hn. destruct (cut_text_words text maxWords Hn) as (ws' & Hw & Hlen & Hjoin).
  split; [now rewrite Hw|].
  rewrite (cutToWords_spec (Search.cutToWords (VStr text) maxWords)) by now left.
  unfold spec_truncate. rewrite Hw.
  rewrite firstn_all2 by lia.
  replace (maxWords <? length ws')%nat with false
    by (symmetry; apply Nat.ltb_ge; lia).
  now rewrite append_empty_r.
Qed.

Lemma cutToWords_cut_is_stable_witness :
  length (spec_words (Search.cutToWords (VStr ("one two" +:+ nbsp +:+ " three four")) 3))
  = Nat.min 3 (length (spec_words ("one two" +:+ nbsp +:+ " three four")))
  /\ Search.cutToWords
       (VStr (Search.cutToWords (VStr ("one two" +:+ nbsp +:+ " three four")) 3)) 3
     = Search.cutToWords (VStr ("one two" +:+ nbsp +:+ " three four")) 3.
Proof.
  exact (cutToWords_cut_is_stable ("one two" +:+ nbsp +:+ " three four") 3 ltac:(lia)).
Defined.
